(** * catcli: the catalog tree of [catcli/nodes.py]

    A shallow embedding of the node classes of catcli (a [NodeAny] base class
    over anytree's [NodeMixin], and its six sub classes) together with the
    properties of path reconstruction, recursive size, storage lookup, flags
    and attachment that the catalog relies on.

    anytree keeps the object graph a forest: a node is attached to at most one
    parent and [LoopError] forbids cycles.  A tree of Python objects is
    therefore embedded as an inductive rose tree, and a reference to one of
    its objects as the list of child indices that leads to it. *)

From Stdlib Require Import ZArith Lia Ascii String.
From stdpp Require Import base option list strings gmap.

Local Open Scope Z_scope.

(** ** Exceptions and the error monad *)

Module Py.

(** The exceptions the embedded code can raise.  [CatcliException] is the
    only one catcli defines; the text of its message is not modelled.
    [IndexError], [AttributeError] and [NotImplementedError] are Python's.
    [DanglingReference] has no Python counterpart: it is returned when a
    handle does not denote a node of the tree it is used with. *)
Inductive exception : Type :=
| CatcliException
| IndexError
| AttributeError
| NotImplementedError
| DanglingReference.

(** The outcome of a call: its value, or the exception it raised.  What a
    call that raises has already changed is not kept. *)
Inductive result (A : Type) : Type :=
| Ok (a : A)
| Raise (e : exception).
Arguments Ok {A} a.
Arguments Raise {A} e.

Definition bind {A B : Type} (m : result A) (k : A -> result B) : result B :=
  match m with
  | Ok a => k a
  | Raise e => Raise e
  end.

Definition from_option {A : Type} (e : exception) (o : option A) : result A :=
  match o with
  | Some a => Ok a
  | None => Raise e
  end.

End Py.

Import Py.

#[global] Instance result_bind : MBind result :=
  fun A B k m => Py.bind m k.
#[global] Instance result_ret : MRet result := @Py.Ok.
#[global] Instance result_fmap : FMap result :=
  fun A B f m =>
    match m with
    | Ok a => Ok (f a)
    | Raise e => Raise e
    end.

#[global] Instance exception_eq_dec : EqDecision exception.
Proof. solve_decision. Defined.

(** ** Node kinds *)

Definition TYPE_TOP : string := "top".
Definition TYPE_FILE : string := "file".
Definition TYPE_DIR : string := "dir".
Definition TYPE_ARCHIVED : string := "arc".
Definition TYPE_STORAGE : string := "storage".
Definition TYPE_META : string := "meta".

Definition NAME_TOP : string := "top".
Definition NAME_META : string := "meta".

(** The value of [__class__] of a node object. *)
Inductive class : Type :=
| NodeAny
| NodeTop
| NodeFile
| NodeDir
| NodeArchived
| NodeStorage
| NodeMeta.

#[global] Instance class_eq_dec : EqDecision class.
Proof. solve_decision. Defined.

(** The attributes a sub class adds to the generic ones.  Timestamps
    ([maccess], [ts]) are Python floats that no method of the module computes
    with; they are carried as integers.  The values of the [attr] dictionary
    of a meta node are carried as strings. *)
Inductive extra : Type :=
| ExtraNone
| ExtraFile (md5 : string) (maccess : Z)
| ExtraDir (maccess : Z)
| ExtraArchived (md5 : string) (archive : string)
| ExtraStorage (free total : Z) (ts : Z) (attr : string)
| ExtraMeta (attr : gmap string string).

(** A node object with the sub tree it owns.  [_flagged] is the attribute of
    the same name: [None] when the object has no such attribute. *)
#[local] Unset Elimination Schemes.
Inductive node : Type :=
  Node {
    cls : class;
    name : string;
    type : string;
    nodesize : Z;
    _flagged : option bool;
    fields : extra;
    children : list node
  }.
#[local] Set Elimination Schemes.

Definition set_cls (k : class) (n : node) : node :=
  Node k (name n) (type n) (nodesize n) (_flagged n) (fields n) (children n).

Definition set_nodesize (size : Z) (n : node) : node :=
  Node (cls n) (name n) (type n) size (_flagged n) (fields n) (children n).

Definition set_children (cs : list node) (n : node) : node :=
  Node (cls n) (name n) (type n) (nodesize n) (_flagged n) (fields n) cs.

Definition set_flagged (f : option bool) (n : node) : node :=
  Node (cls n) (name n) (type n) (nodesize n) f (fields n) (children n).

(** ** [typcast_node] *)

(** The branches of [typcast_node], as a map from the [type] attribute to the
    class that is assigned. *)
Definition class_of_type (t : string) : result class :=
  if decide (t = TYPE_TOP) then Ok NodeTop
  else if decide (t = TYPE_FILE) then Ok NodeFile
  else if decide (t = TYPE_DIR) then Ok NodeDir
  else if decide (t = TYPE_ARCHIVED) then Ok NodeArchived
  else if decide (t = TYPE_STORAGE) then Ok NodeStorage
  else if decide (t = TYPE_META) then Ok NodeMeta
  else Raise CatcliException.

Definition typcast_node (n : node) : result node :=
  k ← class_of_type (type n);
  Ok (set_cls k n).

(** ** [get_rec_size] *)

(** Which classes override [get_rec_size] to store the result in their own
    [nodesize]: [NodeTop], [NodeDir] and [NodeStorage]. *)
Definition stores_size (k : class) : bool :=
  match k with
  | NodeTop | NodeDir | NodeStorage => true
  | _ => false
  end.

(** [get_rec_size_as k self] runs the method [get_rec_size] that class [k]
    resolves to on the object [self], whose [__class__] is [k].  It returns
    the size together with the object (and sub tree) as the call leaves it.

    [NodeMeta.get_rec_size] returns 0.  Every other class runs
    [NodeAny.get_rec_size]: the total starts at [self.nodesize], each child is
    typecast by its [type] and then its own [get_rec_size] is added;
    [NodeTop], [NodeDir] and [NodeStorage] store the total in [self.nodesize]
    before returning it. *)
Fixpoint get_rec_size_as (k : class) (self : node) {struct self}
  : result (Z * node) :=
  match self with
  | Node _ nm ty size fl ex chs =>
      match k with
      | NodeMeta => Ok (0, Node k nm ty size fl ex chs)
      | _ =>
          '(totsize, chs') ←
            (fix loop (todo : list node) (totsize : Z) {struct todo}
               : result (Z * list node) :=
               match todo with
               | [] => Ok (totsize, [])
               | child :: rest =>
                   kc ← class_of_type (type child);
                   '(s, child') ← get_rec_size_as kc child;
                   '(tot, rest') ← loop rest (totsize + s);
                   Ok (tot, child' :: rest')
               end) chs size;
          if stores_size k
          then Ok (totsize, Node k nm ty totsize fl ex chs')
          else Ok (totsize, Node k nm ty size fl ex chs')
      end
  end.

(** [self.get_rec_size()]: dispatch on the class of [self]. *)
Definition get_rec_size (self : node) : result (Z * node) :=
  get_rec_size_as (cls self) self.

(** The loop of [NodeAny.get_rec_size] as the source writes it, over
    [typcast_node] and [get_rec_size]; [get_rec_size_as_unfold] below shows
    that it is the loop of [get_rec_size_as]. *)
Fixpoint rec_size_loop (todo : list node) (totsize : Z)
  : result (Z * list node) :=
  match todo with
  | [] => Ok (totsize, [])
  | child :: rest =>
      child1 ← typcast_node child;
      '(s, child') ← get_rec_size child1;
      '(tot, rest') ← rec_size_loop rest (totsize + s);
      Ok (tot, child' :: rest')
  end.

(** ** References into a tree (anytree's navigation) *)

(** A reference to an object of a tree: the index of the object among the
    children of its parent, followed by the reference to the parent.  The
    root is [[]]. *)
Definition handle : Type := list nat.

Fixpoint deref (root : node) (h : handle) : option node :=
  match h with
  | [] => Some root
  | i :: up => p ← deref root up; children p !! i
  end.

(** The tree in which the object at [h] is replaced by its image under [f]. *)
Fixpoint update (f : node -> node) (h : handle) (root : node) : node :=
  match h with
  | [] => f root
  | i :: up => update (fun p => set_children (alter f i (children p)) p) up root
  end.

(** [node.parent] *)
Definition parent (h : handle) : option handle :=
  match h with
  | [] => None
  | _ :: up => Some up
  end.

(** [NodeMixin.iter_path_reverse]: the node, its parent, ... up to the root. *)
Fixpoint iter_path_reverse (h : handle) : list handle :=
  h :: match h with
       | [] => []
       | _ :: up => iter_path_reverse up
       end.

(** [NodeMixin.path]: from the root down to the node. *)
Definition path (h : handle) : list handle := reverse (iter_path_reverse h).

(** [NodeMixin.ancestors]: the path of the parent, empty for a root. *)
Definition ancestors (h : handle) : list handle :=
  match parent h with
  | None => []
  | Some up => path up
  end.

(** ** [os.path.join] (posixpath, two arguments) *)

Definition sep : string := "/".

Definition startswith (s pre : string) : bool := String.prefix pre s.

Fixpoint endswith_char (c : ascii) (s : string) : bool :=
  match s with
  | EmptyString => false
  | String d EmptyString => bool_decide (d = c)
  | String _ rest => endswith_char c rest
  end.

(** [posixpath.join(a, b)]: [b] alone when it starts with the separator;
    [a + b] when [a] is empty or ends with the separator; [a + sep + b]
    otherwise. *)
Definition os_path_join (a b : string) : string :=
  if startswith b sep then b
  else if bool_decide (a = "") || endswith_char "/" a then a +:+ b
  else a +:+ sep +:+ b.

(** ** [get_fullpath] *)

(** [typcast_node] applied to the object at [h] of the tree. *)
Definition typcast_node_at (root : node) (h : handle) : result node :=
  n ← from_option DanglingReference (deref root h);
  k ← class_of_type (type n);
  Ok (update (set_cls k) h root).

(** [self.get_fullpath()], with the tree as the call leaves it (the parents
    that were typecast on the way have their class set).  [NodeTop] returns
    the empty string; every other class runs [NodeAny.get_fullpath]. *)
Fixpoint get_fullpath (root : node) (self : handle) : result (string * node) :=
  me ← from_option DanglingReference (deref root self);
  match cls me with
  | NodeTop => Ok ("", root)
  | _ =>
      match self with
      | [] => Ok (name me, root)
      | _ :: up =>
          root1 ← typcast_node_at root up;
          '(ppath, root2) ← get_fullpath root1 up;
          Ok (os_path_join ppath (name me), root2)
      end
  end.

(** ** [get_storage_node] *)

(** [NodeFile], [NodeDir] and [NodeArchived] return [self.ancestors[1]];
    [NodeStorage] returns [self]; the other classes inherit
    [NodeAny.get_storage_node], which returns [None]. *)
Definition get_storage_node (root : node) (self : handle)
  : result (option handle) :=
  me ← from_option DanglingReference (deref root self);
  match cls me with
  | NodeFile | NodeDir | NodeArchived =>
      a ← from_option IndexError (ancestors self !! 1%nat);
      Ok (Some a)
  | NodeStorage => Ok (Some self)
  | NodeAny | NodeTop | NodeMeta => Ok None
  end.

(** ** [may_have_children] *)

Definition may_have_children (self : node) : result bool :=
  match cls self with
  | NodeAny => Raise NotImplementedError
  | NodeTop | NodeDir | NodeStorage => Ok true
  | NodeFile | NodeArchived | NodeMeta => Ok false
  end.

(** ** The flag *)

Definition flagged (self : node) : bool :=
  match _flagged self with
  | None => false
  | Some b => b
  end.

Definition flag (self : node) : node := set_flagged (Some true) self.

(** [delattr(self, '_flagged')] raises [AttributeError] when the attribute is
    missing. *)
Definition delattr_flagged (self : node) : result node :=
  match _flagged self with
  | None => Raise AttributeError
  | Some _ => Ok (set_flagged None self)
  end.

Definition unflag (self : node) : result node :=
  delattr_flagged (set_flagged (Some false) self).

(** ** Constructors *)

(** A reference to an object, as a constructor receives it in [parent]: the
    tree the object lives in and its place there. *)
Definition ref : Type := (node * handle).

(** [self.parent = parent] for an object [self] that has no parent yet, which
    is the case in every constructor.  anytree's setter appends [self] to the
    children of the new parent; it looks at no attribute of catcli.  The
    result is the tree [self] now lives in and its place there. *)
Definition set_parent (self : node) (parent : option ref) : result ref :=
  match parent with
  | None => Ok (self, [])
  | Some (root, p) =>
      pn ← from_option DanglingReference (deref root p);
      Ok (update (fun o => set_children (children o ++ [self]) o) p root,
          length (children pn) :: p)
  end.

(** The constructors.  [children] is the list of (parentless) sub trees given
    as [children]; [None] and the empty list both leave the node without
    children. *)
Definition NodeTop_init (name : string) (children : list node) : result ref :=
  set_parent (Node NodeTop name TYPE_TOP 0 None ExtraNone children) None.

Definition NodeFile_init (name : string) (nodesize : Z) (md5 : string)
    (maccess : Z) (parent : option ref) (children : list node) : result ref :=
  set_parent
    (Node NodeFile name TYPE_FILE nodesize None (ExtraFile md5 maccess) children)
    parent.

Definition NodeDir_init (name : string) (nodesize : Z) (maccess : Z)
    (parent : option ref) (children : list node) : result ref :=
  set_parent
    (Node NodeDir name TYPE_DIR nodesize None (ExtraDir maccess) children)
    parent.

Definition NodeArchived_init (name : string) (nodesize : Z) (md5 : string)
    (archive : string) (parent : option ref) (children : list node)
  : result ref :=
  set_parent
    (Node NodeArchived name TYPE_ARCHIVED nodesize None
       (ExtraArchived md5 archive) children)
    parent.

Definition NodeStorage_init (name : string) (free total nodesize ts : Z)
    (attr : string) (parent : option ref) (children : list node)
  : result ref :=
  set_parent
    (Node NodeStorage name TYPE_STORAGE nodesize None
       (ExtraStorage free total ts attr) children)
    parent.

Definition NodeMeta_init (name : string) (attr : gmap string string)
    (parent : option ref) (children : list node) : result ref :=
  set_parent (Node NodeMeta name TYPE_META 0 None (ExtraMeta attr) children)
    parent.

(** ** The catalog of the examples *)

Module Example.

(** [Top("top")], [Storage("disk1", free=100, total=200, size=0, ts=0,
    attr="usb")] under it, [Dir("docs", size=0, maccess=0)] under the
    storage and [File("a.txt", size=10, md5="abc", maccess=0)] under the
    directory, built with the constructors. *)
Definition build : result (ref * ref * ref * ref) :=
  top ← NodeTop_init "top" [];
  disk1 ← NodeStorage_init "disk1" 100 200 0 0 "usb" (Some top) [];
  docs ← NodeDir_init "docs" 0 0 (Some disk1) [];
  file ← NodeFile_init "a.txt" 10 "abc" 0 (Some docs) [];
  Ok (top, disk1, docs, file).

Definition file : node :=
  Node NodeFile "a.txt" TYPE_FILE 10 None (ExtraFile "abc" 0) [].
Definition docs : node :=
  Node NodeDir "docs" TYPE_DIR 0 None (ExtraDir 0) [file].
Definition disk1 : node :=
  Node NodeStorage "disk1" TYPE_STORAGE 0 None
    (ExtraStorage 100 200 0 "usb") [docs].
Definition top : node :=
  Node NodeTop "top" TYPE_TOP 0 None ExtraNone [disk1].

(** The directory of the example with a [nodesize] that is not 0. *)
Definition stale_docs : node :=
  Node NodeDir "docs" TYPE_DIR 7 None (ExtraDir 0) [file].

(** The example with a meta node added under the storage. *)
Definition meta : node :=
  Node NodeMeta "meta" TYPE_META 0 None
    (ExtraMeta {[ "version" := "1" ]}) [].
Definition disk1_meta : node := set_children [docs; meta] disk1.
Definition top_meta : node := set_children [disk1_meta] top.
Definition h_meta : handle := [1%nat; 0%nat].

(** A catalog whose directory sits directly under the top node, and one
    whose file does. *)
Definition top_docs : node := set_children [docs] top.
Definition top_file : node := set_children [file] top.

(** A catalog with a directory whose name starts with the separator. *)
Definition mnt : node :=
  Node NodeDir "/mnt" TYPE_DIR 0 None (ExtraDir 0) [].
Definition top_mnt : node :=
  set_children [set_children [mnt] disk1] top.

Definition h_top : handle := [].
Definition h_disk1 : handle := [0%nat].
Definition h_docs : handle := [0%nat; 0%nat].
Definition h_file : handle := [0%nat; 0%nat; 0%nat].

End Example.

(** ** The invariants of a catalog tree *)

#[global] Instance result_eq_dec `{EqDecision A} : EqDecision (result A).
Proof. solve_decision. Defined.

Definition is_container (k : class) : bool :=
  match k with
  | NodeTop | NodeDir | NodeStorage => true
  | _ => false
  end.

(** Every object of the tree has the class of its [type]: the tree was built
    by the constructors, or every node of it has been typecast. *)
Fixpoint typed (n : node) : bool :=
  match n with
  | Node k _ ty _ _ _ chs =>
      bool_decide (class_of_type ty = Ok k) && forallb typed chs
  end.

(** The structure of the sub tree [n] found at depth [depth]: a [NodeTop] at
    depth 0 and nowhere else, [NodeStorage] at depth 1 only, and children
    under [NodeTop], [NodeStorage] and [NodeDir] only. *)
Fixpoint kinds_ok (depth : nat) (n : node) : bool :=
  match n with
  | Node k _ _ _ _ _ chs =>
      bool_decide (k = NodeTop ↔ depth = 0%nat)
      && bool_decide (k = NodeStorage → depth = 1%nat)
      && (is_container k || bool_decide (chs = []))
      && forallb (kinds_ok (S depth)) chs
  end.

Definition invariants (root : node) : bool := typed root && kinds_ok 0 root.

(** [a] is a proper ancestor of [x]. *)
Definition is_ancestor (a x : handle) : Prop :=
  ∃ below : list nat, below ≠ [] ∧ x = below ++ a.

(** The outcome of a constructor that was given the object [pn] at [p] of
    the tree [root] as parent: the call returns, the new object is the last
    child of [pn], nothing else of [pn] has changed, and the tree is not the
    one before the call. *)
Definition attached (root : node) (p : handle) (pn : node) (r : result ref)
  : Prop :=
  ∃ root' self : node,
    r = Ok (root', length (children pn) :: p)
    ∧ deref root' p = Some (set_children (children pn ++ [self]) pn)
    ∧ deref root' (length (children pn) :: p) = Some self
    ∧ root' ≠ root.

(** ** Reference definitions for the statements *)

(** The sum of [get_rec_size] over a list of children, each one typecast
    first and called on its own. *)
Definition child_rec_size (c : node) : result Z :=
  c' ← typcast_node c;
  '(s, _) ← get_rec_size c';
  Ok s.

Fixpoint sum_rec_size (cs : list node) : result Z :=
  match cs with
  | [] => Ok 0
  | c :: rest =>
      s ← child_rec_size c;
      t ← sum_rec_size rest;
      Ok (s + t)
  end.

(** The size of what a sub tree holds: the sizes of its nodes that are not
    containers, nothing for a meta node. *)
Fixpoint content_size (n : node) : Z :=
  match n with
  | Node k _ _ size _ _ chs =>
      match k with
      | NodeMeta => 0
      | _ =>
          (if is_container k then 0 else size)
          + foldr Z.add 0 (map content_size chs)
      end
  end.

(** A tree as an indexer leaves it before the first [get_rec_size]: typed,
    and with 0 as the [nodesize] of every container. *)
Fixpoint fresh (n : node) : bool :=
  match n with
  | Node k _ ty size _ _ chs =>
      bool_decide (class_of_type ty = Ok k)
      && (negb (is_container k) || bool_decide (size = 0))
      && forallb fresh chs
  end.

(** The names of the nodes from the child of the root down to [h]. *)
Definition names_below_root (root : node) (h : handle) : list string :=
  omap (fun a => name <$> deref root a) (drop 1 (path h)).

(** These names joined with the separator. *)
Definition joined_names (root : node) (h : handle) : string :=
  String.concat sep (names_below_root root h).

(** A name that is a single path component for [os.path.join]: not empty,
    and with no separator at either end. *)
Definition component (s : string) : bool :=
  negb (bool_decide (s = "")) && negb (startswith s sep)
  && negb (endswith_char "/" s).

(** The names of all the nodes strictly below the root on the way to [h] are
    path components. *)
Definition components_below_root (root : node) (h : handle) : bool :=
  forallb component (names_below_root root h).

(** The six values of [type] that [typcast_node] knows, with their classes. *)
Definition known_kinds : list (string * class) :=
  [("top", NodeTop); ("file", NodeFile); ("dir", NodeDir);
   ("arc", NodeArchived); ("storage", NodeStorage); ("meta", NodeMeta)].

(** ** Further definitions for the statements *)

(** A [type] that [typcast_node] accepts. *)
Definition known_type (t : string) : bool :=
  bool_decide (t ∈ known_kinds.*1).

(** All the nodes strictly below [n] have a known [type]. *)
Fixpoint known_below (n : node) : bool :=
  match n with
  | Node _ _ _ _ _ _ chs =>
      forallb (fun c => known_type (type c) && known_below c) chs
  end.

(** The tree with the class of every node forgotten. *)
Fixpoint erase_cls (n : node) : node :=
  match n with
  | Node _ nm ty size fl ex chs =>
      Node NodeAny nm ty size fl ex (map erase_cls chs)
  end.

(** The tree with the [nodesize] of every container forgotten. *)
Fixpoint erase_cache (n : node) : node :=
  match n with
  | Node k nm ty size fl ex chs =>
      Node k nm ty (if is_container k then 0 else size) fl ex
        (map erase_cache chs)
  end.

(** The [type] and [name] of the ancestors of the node at [h], the parent
    first. *)
Fixpoint lineage (root : node) (h : handle) : list (string * string) :=
  match h with
  | [] => []
  | _ :: up =>
      match deref root up with
      | Some p => (type p, name p) :: lineage root up
      | None => []
      end
  end.

(** The path of a node of class [k] and name [nm] as a function of the
    types and names of its ancestors alone. *)
Fixpoint path_of_lineage (k : class) (nm : string)
    (anc : list (string * string)) {struct anc} : result string :=
  match k with
  | NodeTop => Ok ""
  | _ =>
      match anc with
      | [] => Ok nm
      | (pty, pnm) :: rest =>
          pk ← class_of_type pty;
          ppath ← path_of_lineage pk pnm rest;
          Ok (os_path_join ppath nm)
      end
  end.

(** A call of [flag()] or of [unflag()]. *)
Inductive flag_op : Type :=
| Flag
| Unflag.

(** A sequence of such calls on one node, in order. *)
Fixpoint run_flag_ops (ops : list flag_op) (self : node) : result node :=
  match ops with
  | [] => Ok self
  | Flag :: rest => run_flag_ops rest (flag self)
  | Unflag :: rest => self' ← unflag self; run_flag_ops rest self'
  end.

(** The attributes of a node object itself, without its children. *)
Definition own (n : node)
  : class * string * string * Z * option bool * extra :=
  (cls n, name n, type n, nodesize n, _flagged n, fields n).

(** The catalog of the example as a loader leaves it above the file: the
    ancestors of the file are generic nodes that carry their [type]. *)
Definition generic_above_file : node :=
  Node NodeAny "top" TYPE_TOP 0 None ExtraNone
    [Node NodeAny "disk1" TYPE_STORAGE 0 None (ExtraStorage 100 200 0 "usb")
       [Node NodeAny "docs" TYPE_DIR 0 None (ExtraDir 0) [Example.file]]].

(** [n'] is [n] with nodes added after the existing children, at any depth:
    every node of [n] is found in [n'] at the same place with the same
    attributes. *)
#[local] Unset Elimination Schemes.
Inductive extends : node → node → Prop :=
| Extends (n n' : node) (same more : list node) :
    own n' = own n →
    children n' = same ++ more →
    Forall2 extends (children n) same →
    extends n n'.
#[local] Set Elimination Schemes.

(** * Properties *)

(** Decides a closed decidable proposition by evaluation. *)
Ltac by_compute :=
  match goal with
  | |- ?P => apply (@bool_decide_unpack P _); vm_compute; exact I
  end.

(** Runs the binds of the error monad whose first argument is a value. *)
Ltac simpl_bind := cbn [mbind result_bind Py.bind fmap result_fmap].

(** ** The flag *)

(** C9: after [flag()], [flagged()] is true; [unflag()] never fails,
    whatever the state of the flag, and leaves the node without the
    attribute, so that [flagged()] is false afterwards; [flagged()] is false
    on a node that was never flagged, and [unflag()] on such a node succeeds
    and leaves [flagged()] false. *)
Theorem flag_unflag_flagged (self : node) :
  flagged (flag self) = true
  ∧ unflag self = Ok (set_flagged None self)
  ∧ unflag (flag self) = Ok (set_flagged None self)
  ∧ flagged (set_flagged None self) = false
  ∧ (_flagged self = None →
     flagged self = false
     ∧ ∃ self', unflag self = Ok self' ∧ flagged self' = false).
Proof.
  destruct self as [k nm ty sz fl ex chs].
  repeat split; try reflexivity.
  - cbn in H. subst fl. reflexivity.
  - eexists. split; reflexivity.
Qed.

Lemma flag_unflag_flagged_witness :
  flagged (flag Example.file) = true
  ∧ unflag (flag Example.file) = Ok (set_flagged None Example.file)
  ∧ flagged Example.file = false
  ∧ ∃ self', unflag Example.file = Ok self' ∧ flagged self' = false.
Proof.
  destruct (flag_unflag_flagged Example.file)
    as (Hflag & _ & Hunflag & _ & Hnever).
  split; [exact Hflag|]. split; [exact Hunflag|].
  apply Hnever. reflexivity.
Defined.

(** ** [typcast_node] *)

Lemma class_of_type_known (t : string) (k : class) :
  (t, k) ∈ known_kinds → class_of_type t = Ok k.
Proof.
  unfold known_kinds. rewrite !elem_of_cons, elem_of_nil.
  intros [H|[H|[H|[H|[H|[H|[]]]]]]]; injection H as -> ->; reflexivity.
Qed.

Lemma class_of_type_unknown (t : string) :
  t ∉ known_kinds.*1 → class_of_type t = Raise CatcliException.
Proof.
  unfold known_kinds. cbn [fmap list_fmap fst].
  rewrite !not_elem_of_cons. intros (? & ? & ? & ? & ? & ? & _).
  unfold class_of_type, TYPE_TOP, TYPE_FILE, TYPE_DIR, TYPE_ARCHIVED,
    TYPE_STORAGE, TYPE_META.
  repeat case_decide; done.
Qed.

(** C5: [typcast_node] succeeds on a node whose [type] is one of the six
    known kinds, giving it the class of that kind, and raises
    [CatcliException] (the error catcli reports for a bad node) on a node
    with any other [type], producing no node. *)
Theorem typcast_node_known_or_raises (n : node) :
  (∀ k, (type n, k) ∈ known_kinds → typcast_node n = Ok (set_cls k n))
  ∧ (type n ∉ known_kinds.*1 → typcast_node n = Raise CatcliException).
Proof.
  unfold typcast_node. split.
  - intros k Hk. rewrite (class_of_type_known _ _ Hk). reflexivity.
  - intros Hn. rewrite (class_of_type_unknown _ Hn). reflexivity.
Qed.

Lemma typcast_node_known_or_raises_witness :
  typcast_node (Node NodeAny "a.txt" "file" 10 None ExtraNone [])
  = Ok (Node NodeFile "a.txt" "file" 10 None ExtraNone [])
  ∧ typcast_node (Node NodeAny "x" "bogus" 0 None ExtraNone [])
    = Raise CatcliException.
Proof.
  split.
  - apply (proj1 (typcast_node_known_or_raises
                    (Node NodeAny "a.txt" "file" 10 None ExtraNone []))
             NodeFile).
    by_compute.
  - apply (proj2 (typcast_node_known_or_raises
                    (Node NodeAny "x" "bogus" 0 None ExtraNone []))).
    by_compute.
Defined.

(** ** [get_rec_size] *)

Lemma get_rec_size_as_set_cls (k k' : class) (n : node) :
  get_rec_size_as k (set_cls k' n) = get_rec_size_as k n.
Proof. destruct n; reflexivity. Qed.

Lemma get_rec_size_typcast (k : class) (n : node) :
  get_rec_size (set_cls k n) = get_rec_size_as k n.
Proof. destruct n; reflexivity. Qed.

(** The method of each class in the words of the source. *)
Lemma get_rec_size_as_unfold (k : class) (self : node) :
  get_rec_size_as k self =
  match k with
  | NodeMeta => Ok (0, set_cls k self)
  | _ =>
      '(size, chs) ← rec_size_loop (children self) (nodesize self);
      if stores_size k
      then Ok (size, set_nodesize size (set_children chs (set_cls k self)))
      else Ok (size, set_children chs (set_cls k self))
  end.
Proof.
  destruct self as [k0 nm ty sz fl ex chs].
  assert (Hloop : ∀ todo tot,
    (fix loop (todo : list node) (totsize : Z) {struct todo}
       : result (Z * list node) :=
       match todo with
       | [] => Ok (totsize, [])
       | child :: rest =>
           kc ← class_of_type (type child);
           '(s, child') ← get_rec_size_as kc child;
           '(tot, rest') ← loop rest (totsize + s);
           Ok (tot, child' :: rest')
       end) todo tot = rec_size_loop todo tot).
  { induction todo as [|c rest IH]; intros tot; [reflexivity|].
    cbn [rec_size_loop]. unfold typcast_node.
    destruct (class_of_type (type c)) as [kc|e]; [|reflexivity].
    simpl_bind. rewrite get_rec_size_typcast.
    destruct (get_rec_size_as kc c) as [[s c']|e]; [|reflexivity].
    simpl_bind. rewrite IH. reflexivity. }
  destruct k; cbn [get_rec_size_as]; try reflexivity;
    rewrite Hloop; reflexivity.
Qed.

(** The loop returns its start value plus the sum over the children. *)
Lemma rec_size_loop_sum (todo : list node) (tot size : Z) (chs : list node) :
  rec_size_loop todo tot = Ok (size, chs) →
  sum_rec_size todo = Ok (size - tot).
Proof.
  revert tot size chs.
  induction todo as [|c rest IH]; intros tot size chs; cbn.
  - intros [= <- <-]. f_equal. lia.
  - unfold child_rec_size.
    destruct (typcast_node c) as [c1|e]; cbn; [|discriminate].
    destruct (get_rec_size c1) as [[s c']|e]; cbn; [|discriminate].
    destruct (rec_size_loop rest (tot + s)) as [[t rest']|e] eqn:Hrest;
      cbn; [|discriminate].
    intros [= <- <-]. rewrite (IH _ _ _ Hrest). cbn. f_equal. lia.
Qed.

(** What a container returns: the [nodesize] it had when called plus the sum
    over its children, and that is what it stores. *)
Lemma get_rec_size_container (self self' : node) (size : Z) :
  is_container (cls self) = true →
  get_rec_size self = Ok (size, self') →
  sum_rec_size (children self) = Ok (size - nodesize self)
  ∧ nodesize self' = size.
Proof.
  unfold get_rec_size. rewrite get_rec_size_as_unfold. intros Hk.
  destruct (rec_size_loop (children self) (nodesize self))
    as [[t chs]|e] eqn:Hloop.
  - apply rec_size_loop_sum in Hloop.
    destruct (cls self); try discriminate Hk; cbn;
      intros [= <- <-]; split; auto.
  - destruct (cls self); discriminate.
Qed.

(** Induction on a tree: a property holds of a node as soon as it holds of
    all its children. *)
Lemma node_ind' (P : node → Prop) :
  (∀ k nm ty size fl ex chs, Forall P chs → P (Node k nm ty size fl ex chs)) →
  ∀ n, P n.
Proof.
  intros Hnode.
  fix IH 1. intros [k nm ty size fl ex chs]. apply Hnode.
  induction chs as [|c chs IHchs]; constructor; [apply IH|exact IHchs].
Qed.

Lemma fresh_typcast (c : node) :
  fresh c = true → typcast_node c = Ok c.
Proof.
  destruct c as [k nm ty size fl ex chs]. cbn [fresh].
  rewrite !andb_true_iff, bool_decide_eq_true. intros [[Hty _] _].
  unfold typcast_node. cbn [type]. rewrite Hty. reflexivity.
Qed.

Lemma rec_size_loop_fresh (chs : list node) :
  Forall (fun c => fresh c = true →
                   ∃ c', get_rec_size c = Ok (content_size c, c')) chs →
  forallb fresh chs = true →
  ∀ tot, ∃ chs',
    rec_size_loop chs tot
    = Ok (tot + foldr Z.add 0 (map content_size chs), chs').
Proof.
  induction 1 as [|c chs Hc _ IH]; intros Hfresh tot.
  - exists []. cbn. f_equal. f_equal. lia.
  - cbn [forallb] in Hfresh. apply andb_true_iff in Hfresh as [Hf Hfs].
    destruct (Hc Hf) as [c' Hc']. cbn [rec_size_loop].
    rewrite (fresh_typcast _ Hf). simpl_bind. rewrite Hc'. simpl_bind.
    destruct (IH Hfs (tot + content_size c)) as [chs' ->]. simpl_bind.
    exists (c' :: chs'). cbn [map foldr]. f_equal. f_equal. lia.
Qed.

(** On a tree whose containers all have 0 as [nodesize], [get_rec_size]
    returns the size of what the tree holds. *)
Lemma get_rec_size_fresh (n : node) :
  fresh n = true → ∃ n', get_rec_size n = Ok (content_size n, n').
Proof.
  induction n as [k nm ty size fl ex chs IH] using node_ind'.
  cbn [fresh]. rewrite !andb_true_iff. intros [[_ Hzero] Hchs].
  unfold get_rec_size. rewrite get_rec_size_as_unfold. cbn [cls children nodesize].
  destruct (rec_size_loop_fresh chs IH Hchs size) as [chs' Hloop].
  destruct k; cbn [is_container negb orb] in Hzero;
    try apply bool_decide_eq_true in Hzero; subst;
    try (eexists; reflexivity);
    rewrite Hloop; simpl_bind; cbn [stores_size content_size is_container];
    eexists; reflexivity.
Qed.

(** C1: a directory whose [nodesize] is 7 and whose only child is a file of
    size 10 returns 17, while the sum of [get_rec_size] over its children
    is 10. *)
Theorem get_rec_size_adds_cached_size :
  get_rec_size Example.stale_docs = Ok (17, set_nodesize 17 Example.stale_docs)
  ∧ sum_rec_size (children Example.stale_docs) = Ok 10.
Proof. split; reflexivity. Qed.

(** C2: on the catalog of the example the first call of [get_rec_size] on
    the top node returns 10 and the second one, on the tree the first call
    left, returns 40; the [nodesize] of the top node is 10 after the first
    call and 40 after the second. *)
Theorem get_rec_size_twice_differs :
  ∃ once twice : node,
    get_rec_size Example.top = Ok (10, once)
    ∧ get_rec_size once = Ok (40, twice)
    ∧ nodesize once = 10
    ∧ nodesize twice = 40.
Proof. do 2 eexists. repeat split; reflexivity. Qed.

(** ** Navigation *)

Lemma path_nil : path [] = [[]].
Proof. reflexivity. Qed.

Lemma path_cons (i : nat) (up : handle) : path (i :: up) = path up ++ [i :: up].
Proof. unfold path. cbn [iter_path_reverse]. apply reverse_cons. Qed.

Lemma length_path (h : handle) : length (path h) = S (length h).
Proof.
  induction h as [|i up IH]; [reflexivity|].
  rewrite path_cons, length_app, IH. cbn. lia.
Qed.

(** The second entry of a path is the child of the root that the path goes
    through. *)
Lemma path_lookup_1 (below : list nat) (j : nat) :
  path (below ++ [j]) !! 1%nat = Some [j].
Proof.
  induction below as [|i below IH]; [reflexivity|].
  cbn [app]. rewrite path_cons, lookup_app_l; [exact IH|].
  rewrite length_path, length_app. cbn. lia.
Qed.

Lemma ancestors_lookup_1 (i : nat) (below : list nat) (j : nat) :
  ancestors (i :: below ++ [j]) !! 1%nat = Some [j].
Proof. apply path_lookup_1. Qed.

Lemma ancestors_lookup_1_short (h : handle) :
  (length h < 2)%nat → ancestors h !! 1%nat = None.
Proof.
  destruct h as [|i [|j up]]; cbn [length]; intros Hlen;
    [reflexivity|reflexivity|lia].
Qed.

Lemma forallb_lookup {A : Type} (f : A → bool) (l : list A) (i : nat) (x : A) :
  forallb f l = true → l !! i = Some x → f x = true.
Proof.
  intros Hall Hx. rewrite forallb_forall in Hall.
  apply Hall, list_elem_of_In. eapply list_elem_of_lookup_2, Hx.
Qed.

Lemma kinds_ok_deref (root : node) (h : handle) (n : node) (d : nat) :
  kinds_ok d root = true →
  deref root h = Some n →
  kinds_ok (length h + d) n = true.
Proof.
  intros Hroot. revert n.
  induction h as [|i up IH]; intros n; cbn [deref length].
  - intros [= <-]. exact Hroot.
  - destruct (deref root up) as [p|]; [|discriminate]. cbn.
    intros Hn. specialize (IH p eq_refl).
    destruct p as [k nm ty sz fl ex chs]. cbn in IH, Hn.
    rewrite !andb_true_iff in IH. destruct IH as (_ & Hchs).
    eapply forallb_lookup; eassumption.
Qed.

Lemma kinds_ok_storage_depth (root : node) (h : handle) (n : node) :
  kinds_ok 0 root = true →
  deref root h = Some n →
  cls n = NodeStorage →
  length h = 1%nat.
Proof.
  intros Hroot Hn Hk. pose proof (kinds_ok_deref _ _ _ _ Hroot Hn) as Hok.
  destruct n as [k nm ty sz fl ex chs]. cbn in Hok, Hk.
  rewrite !andb_true_iff, !bool_decide_eq_true in Hok.
  destruct Hok as (((_ & Hst) & _) & _). specialize (Hst Hk). lia.
Qed.

(** ** [get_storage_node] *)

(** C10: [get_storage_node] of a meta node is [None], whatever its place in
    the tree and its attributes; it does not fail and does not look at the
    parent. *)
Theorem meta_get_storage_node (root : node) (self : handle) (me : node) :
  deref root self = Some me →
  cls me = NodeMeta →
  get_storage_node root self = Ok None.
Proof.
  intros Hme Hk. unfold get_storage_node. rewrite Hme.
  cbn [from_option]. simpl_bind. rewrite Hk. reflexivity.
Qed.

Lemma meta_get_storage_node_witness :
  get_storage_node Example.top_meta Example.h_meta = Ok None.
Proof.
  apply (meta_get_storage_node Example.top_meta Example.h_meta Example.meta);
    reflexivity.
Defined.

(** What the three classes that index the ancestors return. *)
Lemma get_storage_node_indexed (root : node) (self : handle) (me : node) :
  deref root self = Some me →
  cls me ∈ [NodeFile; NodeDir; NodeArchived] →
  get_storage_node root self =
  a ← from_option IndexError (ancestors self !! 1%nat); Ok (Some a).
Proof.
  intros Hme Hk. unfold get_storage_node. rewrite Hme.
  cbn [from_option]. simpl_bind. rewrite !elem_of_cons, elem_of_nil in Hk.
  destruct Hk as [->|[->|[->|[]]]]; reflexivity.
Qed.

(** With two ancestors or more, they return the child of the root that is
    above the node, whatever its class. *)
Lemma get_storage_node_below (root : node) (i : nat) (below : list nat)
    (j : nat) (me : node) :
  deref root (i :: below ++ [j]) = Some me →
  cls me ∈ [NodeFile; NodeDir; NodeArchived] →
  get_storage_node root (i :: below ++ [j]) = Ok (Some [j]).
Proof.
  intros Hme Hk. rewrite (get_storage_node_indexed _ _ _ Hme Hk).
  rewrite ancestors_lookup_1. reflexivity.
Qed.

(** C8, as the code has it: for a file, directory or archived node the
    lookup returns the ancestor at index 1 of the chain that starts at the
    root, whatever the class of that ancestor, and raises Python's
    [IndexError] when the node has fewer than two ancestors. *)
Theorem get_storage_node_positional (root : node) (self : handle) (me : node) :
  deref root self = Some me →
  cls me ∈ [NodeFile; NodeDir; NodeArchived] →
  (∀ i below j, self = i :: below ++ [j] →
     get_storage_node root self = Ok (Some [j]))
  ∧ ((length self < 2)%nat → get_storage_node root self = Raise IndexError).
Proof.
  intros Hme Hk. split.
  - intros i below j ->. eapply get_storage_node_below; eassumption.
  - intros Hlen. rewrite (get_storage_node_indexed _ _ _ Hme Hk).
    rewrite (ancestors_lookup_1_short _ Hlen). reflexivity.
Qed.

Lemma get_storage_node_positional_witness :
  get_storage_node Example.top_docs [0; 0]%nat = Ok (Some [0%nat])
  ∧ get_storage_node Example.top_file [0%nat] = Raise IndexError.
Proof.
  split.
  - apply (proj1 (get_storage_node_positional
                    Example.top_docs [0; 0]%nat Example.file
                    eq_refl ltac:(by_compute)) 0%nat [] 0%nat eq_refl).
  - apply (proj2 (get_storage_node_positional
                    Example.top_file [0%nat] Example.file
                    eq_refl ltac:(by_compute))).
    cbn. lia.
Defined.

(** C8 fails as stated: with a directory directly under the top node, the
    lookup on a file of that directory does not fail; it returns the
    directory, which is not a storage node. *)
Lemma get_storage_node_returns_directory :
  cls <$> deref Example.top_docs [0%nat] = Some NodeDir
  ∧ get_storage_node Example.top_docs [0; 0]%nat = Ok (Some [0%nat]).
Proof. split; reflexivity. Qed.

(** C3 fails as stated: the meta node under the storage of the example has
    a storage ancestor, in a tree that satisfies the invariants, and its
    lookup returns [None]. *)
Lemma meta_under_storage_has_no_owner :
  invariants Example.top_meta = true
  ∧ is_ancestor Example.h_disk1 Example.h_meta
  ∧ cls <$> deref Example.top_meta Example.h_disk1 = Some NodeStorage
  ∧ cls <$> deref Example.top_meta Example.h_meta = Some NodeMeta
  ∧ get_storage_node Example.top_meta Example.h_meta = Ok None
  ∧ get_storage_node Example.top_meta Example.h_meta
    ≠ Ok (Some Example.h_disk1).
Proof.
  repeat split; try reflexivity; try discriminate.
  exists [1%nat]. split; [discriminate|reflexivity].
Qed.

(** C3, for the classes that implement the lookup: in a tree that satisfies
    the invariants, a file, directory or archived node below a storage node
    [S] gets [S], at any depth below it; a storage node gets itself; the top
    node gets [None]. *)
Theorem get_storage_node_owner (root : node) :
  invariants root = true →
  (∀ (x S : handle) (nx nS : node),
     deref root x = Some nx →
     deref root S = Some nS →
     cls nS = NodeStorage →
     is_ancestor S x →
     cls nx ∈ [NodeFile; NodeDir; NodeArchived] →
     get_storage_node root x = Ok (Some S))
  ∧ (∀ (S : handle) (nS : node),
       deref root S = Some nS →
       cls nS = NodeStorage →
       get_storage_node root S = Ok (Some S))
  ∧ (∀ (T : handle) (nT : node),
       deref root T = Some nT →
       cls nT = NodeTop →
       get_storage_node root T = Ok None).
Proof.
  unfold invariants. rewrite andb_true_iff. intros [_ Hkinds].
  split; [|split].
  - intros x S nx nS Hx HS HkS (below & Hne & ->) Hkx.
    pose proof (kinds_ok_storage_depth _ _ _ Hkinds HS HkS) as Hlen.
    destruct S as [|j [|? ?]]; try discriminate Hlen.
    destruct below as [|i below]; [done|].
    exact (get_storage_node_below _ _ _ _ _ Hx Hkx).
  - intros S nS HS Hk. unfold get_storage_node. rewrite HS.
    cbn [from_option]. simpl_bind. rewrite Hk. reflexivity.
  - intros T nT HT Hk. unfold get_storage_node. rewrite HT.
    cbn [from_option]. simpl_bind. rewrite Hk. reflexivity.
Qed.

Lemma get_storage_node_owner_witness :
  get_storage_node Example.top Example.h_file = Ok (Some Example.h_disk1)
  ∧ get_storage_node Example.top Example.h_docs = Ok (Some Example.h_disk1)
  ∧ get_storage_node Example.top Example.h_disk1 = Ok (Some Example.h_disk1)
  ∧ get_storage_node Example.top Example.h_top = Ok None.
Proof.
  destruct (get_storage_node_owner Example.top eq_refl)
    as (Hbelow & Hself & Htop).
  split; [|split; [|split]].
  - apply (Hbelow Example.h_file Example.h_disk1 Example.file Example.disk1);
      try reflexivity; [|by_compute].
    exists [0; 0]%nat. split; [discriminate|reflexivity].
  - apply (Hbelow Example.h_docs Example.h_disk1 Example.docs Example.disk1);
      try reflexivity; [|by_compute].
    exists [0%nat]. split; [discriminate|reflexivity].
  - apply (Hself Example.h_disk1 Example.disk1); reflexivity.
  - apply (Htop Example.h_top Example.top); reflexivity.
Defined.

(** ** Updating a tree *)

Lemma deref_update (f : node → node) (h : handle) (root n : node) :
  deref root h = Some n →
  deref (update f h root) h = Some (f n).
Proof.
  revert f n. induction h as [|i up IH]; intros f n; cbn [deref update].
  - intros [= <-]. reflexivity.
  - destruct (deref root up) as [p|] eqn:Hp; [|discriminate]. cbn.
    intros Hn. rewrite (IH _ p eq_refl). cbn.
    rewrite list_lookup_alter_eq, Hn. reflexivity.
Qed.

Lemma set_children_children (n : node) : set_children (children n) n = n.
Proof. destruct n; reflexivity. Qed.

(** An update that does not change the object it is applied to leaves the
    tree as it is. *)
Lemma update_id (f : node → node) (h : handle) (root n : node) :
  deref root h = Some n →
  f n = n →
  update f h root = root.
Proof.
  revert f n. induction h as [|i up IH]; intros f n; cbn [deref update].
  - intros [= <-] Hf. exact Hf.
  - destruct (deref root up) as [p|] eqn:Hp; [|discriminate]. cbn.
    intros Hn Hf. apply (IH _ p eq_refl).
    rewrite (list_alter_ext f id (children p) (children p) i).
    + rewrite list_alter_id by done. apply set_children_children.
    + intros x Hx. rewrite Hn in Hx. injection Hx as <-. exact Hf.
    + reflexivity.
Qed.

(** ** Attaching a node *)

(** Setting the parent of a new object appends it to the children of the
    parent, whatever the class of the parent. *)
Lemma set_parent_attached (self root : node) (p : handle) (pn : node) :
  deref root p = Some pn →
  attached root p pn (set_parent self (Some (root, p))).
Proof.
  intros Hp. unfold attached, set_parent. rewrite Hp.
  cbn [from_option]. simpl_bind.
  pose proof (deref_update
                (fun o => set_children (children o ++ [self]) o) p root pn Hp)
    as Hp'.
  cbn beta in Hp'. eexists _, self. split; [reflexivity|]. split; [exact Hp'|]. split.
  - cbn [deref]. rewrite Hp'. cbn.
    rewrite lookup_app_r by lia. rewrite Nat.sub_diag. reflexivity.
  - intros Heq. rewrite Heq, Hp in Hp'. injection Hp' as Hpn.
    apply (f_equal (fun n => length (children n))) in Hpn.
    cbn in Hpn. rewrite length_app in Hpn. cbn in Hpn. lia.
Qed.

(** C4 fails as stated: a file constructed with the file of the example as
    its parent is attached to it; the constructor returns the handle of the
    new node in a tree that differs from the one before the call. *)
Lemma file_attached_under_file :
  ∃ root' : node,
    NodeFile_init "b.txt" 1 "def" 0 (Some (Example.top, Example.h_file)) []
    = Ok (root', 0%nat :: Example.h_file)
    ∧ (children <$> deref root' Example.h_file)
      = Some [Node NodeFile "b.txt" TYPE_FILE 1 None (ExtraFile "def" 0) []]
    ∧ root' ≠ Example.top.
Proof. eexists. split; [reflexivity|]. split; [reflexivity|discriminate]. Qed.

(** C4, as the code has it: for a parent of class [NodeFile],
    [NodeArchived] or [NodeMeta], [may_have_children] answers [False], yet
    every constructor that is given this parent returns normally with the
    new node appended to the children of the parent; and the constructors of
    these three classes accept a list of children and own it. *)
Theorem attach_under_leaf_succeeds (root : node) (p : handle) (pn : node) :
  deref root p = Some pn →
  cls pn ∈ [NodeFile; NodeArchived; NodeMeta] →
  may_have_children pn = Ok false
  ∧ (∀ name nodesize md5 maccess chs,
       attached root p pn
         (NodeFile_init name nodesize md5 maccess (Some (root, p)) chs))
  ∧ (∀ name nodesize maccess chs,
       attached root p pn
         (NodeDir_init name nodesize maccess (Some (root, p)) chs))
  ∧ (∀ name nodesize md5 archive chs,
       attached root p pn
         (NodeArchived_init name nodesize md5 archive (Some (root, p)) chs))
  ∧ (∀ name free total nodesize ts attr chs,
       attached root p pn
         (NodeStorage_init name free total nodesize ts attr
            (Some (root, p)) chs))
  ∧ (∀ name attr chs,
       attached root p pn (NodeMeta_init name attr (Some (root, p)) chs))
  ∧ (∀ name nodesize md5 maccess chs,
       children ∘ fst <$> NodeFile_init name nodesize md5 maccess None chs
       = Ok chs)
  ∧ (∀ name nodesize md5 archive chs,
       children ∘ fst <$> NodeArchived_init name nodesize md5 archive None chs
       = Ok chs)
  ∧ (∀ name attr chs,
       children ∘ fst <$> NodeMeta_init name attr None chs = Ok chs).
Proof.
  intros Hp Hk. split.
  { unfold may_have_children. rewrite !elem_of_cons, elem_of_nil in Hk.
    destruct Hk as [->|[->|[->|[]]]]; reflexivity. }
  repeat split; intros; try reflexivity; apply set_parent_attached, Hp.
Qed.

Lemma attach_under_leaf_succeeds_witness :
  attached Example.top Example.h_file Example.file
    (NodeFile_init "b.txt" 1 "def" 0 (Some (Example.top, Example.h_file)) []).
Proof.
  apply (proj1 (proj2 (attach_under_leaf_succeeds
                         Example.top Example.h_file Example.file
                         eq_refl ltac:(by_compute)))).
Defined.

(** ** [get_fullpath] *)

Lemma example_build :
  Example.build
  = Ok ((Node NodeTop "top" TYPE_TOP 0 None ExtraNone [], []),
        (set_children [set_children [] Example.disk1] Example.top,
         Example.h_disk1),
        (set_children
           [set_children [set_children [] Example.docs] Example.disk1]
           Example.top,
         Example.h_docs),
        (Example.top, Example.h_file)).
Proof. reflexivity. Qed.

(** C7 fails as stated: the path of the file of the example is not
    ["docs/a.txt"]. *)
Lemma example_fullpath_not_docs :
  fst <$> get_fullpath Example.top Example.h_file ≠ Ok "docs/a.txt".
Proof. discriminate. Qed.

(** C7, as the code has it: the path of the file of the example starts with
    the name of the storage, ["disk1/docs/a.txt"], and the call leaves the
    tree as it was. *)
Theorem example_fullpath :
  get_fullpath Example.top Example.h_file
  = Ok ("disk1/docs/a.txt", Example.top).
Proof. reflexivity. Qed.

(** *** Strings *)

Lemma append_assoc (a b c : string) : (a +:+ b) +:+ c = a +:+ b +:+ c.
Proof.
  induction a as [|d a IH]; [reflexivity|].
  change (String d ((a +:+ b) +:+ c) = String d (a +:+ b +:+ c)).
  f_equal. exact IH.
Qed.

Lemma append_nonempty (a b : string) : b ≠ "" → a +:+ b ≠ "".
Proof. destruct a; [trivial|discriminate]. Qed.

Lemma endswith_char_cons (c d : ascii) (s : string) :
  s ≠ "" → endswith_char c (String d s) = endswith_char c s.
Proof. destruct s; [done|reflexivity]. Qed.

Lemma endswith_char_append (c : ascii) (a b : string) :
  b ≠ "" → endswith_char c (a +:+ b) = endswith_char c b.
Proof.
  intros Hb. induction a as [|d a IH]; [reflexivity|].
  change (endswith_char c (String d (a +:+ b)) = endswith_char c b).
  rewrite endswith_char_cons by (apply append_nonempty, Hb). exact IH.
Qed.

Lemma component_spec (s : string) :
  component s = true →
  s ≠ "" ∧ startswith s sep = false ∧ endswith_char "/" s = false.
Proof.
  unfold component.
  rewrite !andb_true_iff, !negb_true_iff, bool_decide_eq_false. tauto.
Qed.

Lemma os_path_join_empty (b : string) : os_path_join "" b = b.
Proof. unfold os_path_join. destruct (startswith b sep); reflexivity. Qed.

Lemma os_path_join_sep (a b : string) :
  a ≠ "" →
  endswith_char "/" a = false →
  startswith b sep = false →
  os_path_join a b = a +:+ sep +:+ b.
Proof.
  intros Ha Hend Hb. unfold os_path_join. rewrite Hb, Hend.
  rewrite bool_decide_eq_false_2 by exact Ha. reflexivity.
Qed.

Lemma concat_snoc (l : list string) (x : string) :
  l ≠ [] →
  String.concat sep (l ++ [x]) = String.concat sep l +:+ sep +:+ x.
Proof.
  induction l as [|y [|z r] IH]; intros Hl; [done|reflexivity|].
  change (y +:+ sep +:+ String.concat sep ((z :: r) ++ [x])
          = (y +:+ sep +:+ String.concat sep (z :: r)) +:+ sep +:+ x).
  rewrite IH by discriminate. rewrite !append_assoc. reflexivity.
Qed.

(** A non empty list of components joins to a non empty string that does
    not end with the separator. *)
Lemma concat_components (l : list string) :
  l ≠ [] →
  forallb component l = true →
  String.concat sep l ≠ "" ∧ endswith_char "/" (String.concat sep l) = false.
Proof.
  destruct l as [|x l] using rev_ind; [done|]. intros _.
  rewrite forallb_app, andb_true_iff. cbn [forallb].
  rewrite andb_true_r. intros [_ Hx].
  apply component_spec in Hx as (Hne & _ & Hend).
  destruct l as [|y l].
  - split; assumption.
  - rewrite concat_snoc by discriminate. split.
    + apply append_nonempty, append_nonempty, Hne.
    + rewrite !endswith_char_append; [exact Hend|exact Hne|].
      apply append_nonempty, Hne.
Qed.

(** *** Names along a path *)

Lemma names_below_root_nil (root : node) : names_below_root root [] = [].
Proof. reflexivity. Qed.

Lemma names_below_root_cons (root : node) (i : nat) (up : handle) (n : node) :
  deref root (i :: up) = Some n →
  names_below_root root (i :: up) = names_below_root root up ++ [name n].
Proof.
  intros Hn. unfold names_below_root.
  rewrite path_cons, drop_app_le by (rewrite length_path; lia).
  rewrite omap_app. f_equal. cbn [omap list_omap]. rewrite Hn. reflexivity.
Qed.

(** *** Typed trees *)

Lemma typed_deref (root : node) (h : handle) (n : node) :
  typed root = true → deref root h = Some n → typed n = true.
Proof.
  intros Hroot. revert n.
  induction h as [|i up IH]; intros n; cbn [deref].
  - intros [= <-]. exact Hroot.
  - destruct (deref root up) as [p|]; [|discriminate]. cbn.
    intros Hn. specialize (IH p eq_refl).
    destruct p as [k nm ty sz fl ex chs]. cbn in IH, Hn.
    rewrite andb_true_iff in IH. destruct IH as [_ Hchs].
    eapply forallb_lookup; eassumption.
Qed.

Lemma typed_class (n : node) :
  typed n = true → class_of_type (type n) = Ok (cls n).
Proof.
  destruct n as [k nm ty sz fl ex chs]. cbn.
  rewrite andb_true_iff, bool_decide_eq_true. tauto.
Qed.

Lemma set_cls_cls (n : node) : set_cls (cls n) n = n.
Proof. destruct n; reflexivity. Qed.

(** Typecasting a node of a typed tree changes nothing. *)
Lemma typcast_node_at_typed (root : node) (h : handle) (n : node) :
  typed root = true →
  deref root h = Some n →
  typcast_node_at root h = Ok root.
Proof.
  intros Hroot Hn. unfold typcast_node_at. rewrite Hn.
  cbn [from_option]. simpl_bind.
  rewrite (typed_class n) by (eapply typed_deref; eassumption).
  simpl_bind. f_equal. eapply update_id; [exact Hn|apply set_cls_cls].
Qed.

(** *** The path of a node *)

Lemma get_fullpath_top (root : node) (h : handle) (n : node) :
  deref root h = Some n →
  cls n = NodeTop →
  get_fullpath root h = Ok ("", root).
Proof.
  intros Hn Hk. destruct h; cbn [get_fullpath]; rewrite Hn;
    cbn [from_option]; simpl_bind; rewrite Hk; reflexivity.
Qed.

Lemma get_fullpath_cons (root : node) (i : nat) (up : handle) (n : node) :
  deref root (i :: up) = Some n →
  cls n ≠ NodeTop →
  get_fullpath root (i :: up) =
  root1 ← typcast_node_at root up;
  '(ppath, root2) ← get_fullpath root1 up;
  Ok (os_path_join ppath (name n), root2).
Proof.
  intros Hn Hk. cbn [get_fullpath]. rewrite Hn.
  cbn [from_option]. simpl_bind. destruct (cls n); try reflexivity. done.
Qed.

Lemma get_fullpath_root (root : node) :
  cls root ≠ NodeTop → get_fullpath root [] = Ok (name root, root).
Proof.
  intros Hk. cbn. destruct (cls root); try reflexivity. done.
Qed.

(** On a typed tree [get_fullpath] returns, and leaves the tree as it is. *)
Lemma get_fullpath_total (root : node) (h : handle) (n : node) :
  typed root = true →
  deref root h = Some n →
  ∃ s : string, get_fullpath root h = Ok (s, root).
Proof.
  intros Hroot. revert n. induction h as [|i up IH]; intros n Hn.
  - destruct (decide (cls n = NodeTop)) as [Hk|Hk].
    + eexists. eapply get_fullpath_top; eassumption.
    + injection Hn as <-. eexists. apply get_fullpath_root, Hk.
  - destruct (decide (cls n = NodeTop)) as [Hk|Hk].
    + eexists. eapply get_fullpath_top; eassumption.
    + rewrite (get_fullpath_cons _ _ _ _ Hn Hk).
      cbn [deref] in Hn. destruct (deref root up) as [p|] eqn:Hp;
        [|discriminate].
      rewrite (typcast_node_at_typed _ _ _ Hroot Hp). simpl_bind.
      destruct (IH p eq_refl) as [s ->]. simpl_bind. eexists. reflexivity.
Qed.

Lemma kinds_ok_top (root : node) (h : handle) (n : node) :
  kinds_ok 0 root = true →
  deref root h = Some n →
  cls n = NodeTop ↔ h = [].
Proof.
  intros Hroot Hn. pose proof (kinds_ok_deref _ _ _ _ Hroot Hn) as Hok.
  destruct n as [k nm ty sz fl ex chs]. cbn in Hok |- *.
  rewrite !andb_true_iff, !bool_decide_eq_true in Hok.
  destruct Hok as (((Htop & _) & _) & _). rewrite Htop.
  destruct h; cbn; [done|]. split; [lia|discriminate].
Qed.

(** The path of a node whose ancestors below the root all have names that
    are path components: these names joined by the separator. *)
Lemma get_fullpath_joined (root : node) (h : handle) (n : node) :
  invariants root = true →
  deref root h = Some n →
  components_below_root root h = true →
  get_fullpath root h = Ok (joined_names root h, root).
Proof.
  unfold invariants, components_below_root, joined_names.
  rewrite andb_true_iff. intros [Htyped Hkinds].
  revert n. induction h as [|i up IH]; intros n Hn Hcomp.
  - apply (get_fullpath_top _ _ _ Hn).
    apply (kinds_ok_top _ _ _ Hkinds Hn). reflexivity.
  - assert (Hk : cls n ≠ NodeTop).
    { intros Hk. apply (kinds_ok_top _ _ _ Hkinds Hn) in Hk. discriminate. }
    rewrite (get_fullpath_cons _ _ _ _ Hn Hk).
    rewrite (names_below_root_cons _ _ _ _ Hn) in Hcomp |- *.
    rewrite forallb_app, andb_true_iff in Hcomp. cbn [forallb] in Hcomp.
    rewrite andb_true_r in Hcomp. destruct Hcomp as [Hup Hname].
    pose proof Hn as Hn'. cbn [deref] in Hn'.
    destruct (deref root up) as [p|] eqn:Hp; [|discriminate].
    rewrite (typcast_node_at_typed _ _ _ Htyped Hp). simpl_bind.
    rewrite (IH p eq_refl Hup). simpl_bind. f_equal. f_equal.
    destruct up as [|j up].
    + rewrite names_below_root_nil. apply os_path_join_empty.
    + assert (Hne : names_below_root root (j :: up) ≠ []).
      { rewrite (names_below_root_cons _ _ _ _ Hp).
        intros Hnil. apply app_eq_nil in Hnil as [_ Hnil]. discriminate. }
      destruct (concat_components _ Hne Hup) as [Hne' Hend].
      apply component_spec in Hname as (_ & Hstart & _).
      rewrite os_path_join_sep by assumption.
      rewrite concat_snoc by exact Hne. reflexivity.
Qed.

(** C6 fails as stated: under the storage ["disk1"] a directory named
    ["/mnt"] has the path ["/mnt"], which is not the names of the storage
    and of the directory joined by the separator. *)
Lemma fullpath_of_absolute_name :
  invariants Example.top_mnt = true
  ∧ fst <$> get_fullpath Example.top_mnt [0; 0]%nat = Ok "/mnt"
  ∧ names_below_root Example.top_mnt [0; 0]%nat = ["disk1"; "/mnt"]
  ∧ fst <$> get_fullpath Example.top_mnt [0; 0]%nat
    ≠ Ok (joined_names Example.top_mnt [0; 0]%nat).
Proof. repeat split; try reflexivity. discriminate. Qed.

(** C6, as the code has it: the path of a top node is empty in every tree.
    In a tree that satisfies the invariants, the path of any other node is
    [os.path.join] of the path of its parent and its name; and when the
    names from the child of the top node down to the node are path
    components (not empty, no separator at either end), it is these names
    joined by the separator.  The calls leave the tree as it is. *)
Theorem get_fullpath_spec (root : node) :
  (∀ (h : handle) (n : node),
     deref root h = Some n → cls n = NodeTop →
     get_fullpath root h = Ok ("", root))
  ∧ (invariants root = true →
     (∀ (h : handle) (n : node),
        deref root h = Some n → cls n ≠ NodeTop →
        ∃ (up : handle) (ppath : string),
          parent h = Some up
          ∧ get_fullpath root up = Ok (ppath, root)
          ∧ get_fullpath root h = Ok (os_path_join ppath (name n), root))
     ∧ (∀ (h : handle) (n : node),
          deref root h = Some n →
          components_below_root root h = true →
          get_fullpath root h = Ok (joined_names root h, root))).
Proof.
  split; [apply get_fullpath_top|]. intros Hinv. split.
  - intros h n Hn Hk.
    pose proof Hinv as Hinv'. unfold invariants in Hinv'.
    rewrite andb_true_iff in Hinv'. destruct Hinv' as [Htyped Hkinds].
    destruct h as [|i up].
    { exfalso. apply Hk. apply (kinds_ok_top _ _ _ Hkinds Hn). reflexivity. }
    pose proof Hn as Hn'. cbn [deref] in Hn'.
    destruct (deref root up) as [p|] eqn:Hp; [|discriminate].
    destruct (get_fullpath_total _ _ _ Htyped Hp) as [ppath Hpp].
    exists up, ppath. split; [reflexivity|]. split; [exact Hpp|].
    rewrite (get_fullpath_cons _ _ _ _ Hn Hk).
    rewrite (typcast_node_at_typed _ _ _ Htyped Hp). simpl_bind.
    rewrite Hpp. reflexivity.
  - intros h n. apply get_fullpath_joined, Hinv.
Qed.

Lemma get_fullpath_spec_witness :
  get_fullpath Example.top Example.h_top = Ok ("", Example.top)
  ∧ (∃ (up : handle) (ppath : string),
       parent Example.h_file = Some up
       ∧ get_fullpath Example.top up = Ok (ppath, Example.top)
       ∧ get_fullpath Example.top Example.h_file
         = Ok (os_path_join ppath "a.txt", Example.top))
  ∧ get_fullpath Example.top Example.h_file
    = Ok (joined_names Example.top Example.h_file, Example.top).
Proof.
  destruct (get_fullpath_spec Example.top) as [Htop Hinv].
  destruct (Hinv eq_refl) as [Hjoin Hnames].
  split; [|split].
  - apply (Htop Example.h_top Example.top); reflexivity.
  - apply (Hjoin Example.h_file Example.file); [reflexivity|discriminate].
  - apply (Hnames Example.h_file Example.file); reflexivity.
Defined.


(** * Further properties *)

(** ** [typcast_node], [may_have_children] and the constructors *)

Lemma class_of_type_cases (t : string) (k : class) :
  class_of_type t = Ok k → (t, k) ∈ known_kinds.
Proof.
  unfold class_of_type, known_kinds, TYPE_TOP, TYPE_FILE, TYPE_DIR,
    TYPE_ARCHIVED, TYPE_STORAGE, TYPE_META.
  repeat case_decide; intros [= <-]; subst; rewrite !elem_of_cons; tauto.
Qed.

Lemma class_of_type_raises (t : string) (e : exception) :
  class_of_type t = Raise e → e = CatcliException.
Proof.
  unfold class_of_type. repeat case_decide; congruence.
Qed.

Lemma known_type_class (t : string) :
  known_type t = true ↔ ∃ k, class_of_type t = Ok k.
Proof.
  unfold known_type. rewrite bool_decide_eq_true. split.
  - intros Ht. destruct (class_of_type t) as [k|e] eqn:Hk; [eauto|].
    exfalso. revert Ht. unfold known_kinds. cbn [fmap list_fmap fst].
    rewrite !elem_of_cons, elem_of_nil.
    intros [->|[->|[->|[->|[->|[->|[]]]]]]]; discriminate Hk.
  - intros [k Hk]. apply class_of_type_cases in Hk.
    apply (list_elem_of_fmap_2 fst) in Hk. exact Hk.
Qed.

(** X1: [typcast_node] changes nothing but the class, and typecasting a
    node that has been typecast leaves it as it is. *)
Theorem typcast_node_idempotent (n n' : node) :
  typcast_node n = Ok n' →
  typcast_node n' = Ok n'
  ∧ name n' = name n ∧ type n' = type n ∧ nodesize n' = nodesize n
  ∧ _flagged n' = _flagged n ∧ fields n' = fields n
  ∧ children n' = children n.
Proof.
  unfold typcast_node.
  destruct (class_of_type (type n)) as [k|e] eqn:Hk; [|discriminate].
  simpl_bind. intros [= <-]. cbn. rewrite Hk. simpl_bind.
  repeat split; reflexivity.
Qed.

Lemma typcast_node_idempotent_witness :
  typcast_node (Node NodeFile "a.txt" "file" 10 None ExtraNone [])
  = Ok (Node NodeFile "a.txt" "file" 10 None ExtraNone []).
Proof.
  apply (typcast_node_idempotent
           (Node NodeAny "a.txt" "file" 10 None ExtraNone [])
           (Node NodeFile "a.txt" "file" 10 None ExtraNone []) eq_refl).
Defined.

(** X2: the object a constructor builds is left unchanged by
    [typcast_node]: every constructor sets the [type] that goes with its
    class. *)
Theorem constructed_node_is_typed :
  (∀ name chs r, NodeTop_init name chs = Ok r →
     typcast_node r.1 = Ok r.1)
  ∧ (∀ name nodesize md5 maccess chs r,
       NodeFile_init name nodesize md5 maccess None chs = Ok r →
       typcast_node r.1 = Ok r.1)
  ∧ (∀ name nodesize maccess chs r,
       NodeDir_init name nodesize maccess None chs = Ok r →
       typcast_node r.1 = Ok r.1)
  ∧ (∀ name nodesize md5 archive chs r,
       NodeArchived_init name nodesize md5 archive None chs = Ok r →
       typcast_node r.1 = Ok r.1)
  ∧ (∀ name free total nodesize ts attr chs r,
       NodeStorage_init name free total nodesize ts attr None chs = Ok r →
       typcast_node r.1 = Ok r.1)
  ∧ (∀ name attr chs r,
       NodeMeta_init name attr None chs = Ok r →
       typcast_node r.1 = Ok r.1).
Proof.
  repeat split; intros; match goal with H : _ = Ok _ |- _ =>
    injection H as <- end; reflexivity.
Qed.

Lemma constructed_node_is_typed_witness :
  typcast_node (Node NodeDir "docs" TYPE_DIR 0 None (ExtraDir 0) [])
  = Ok (Node NodeDir "docs" TYPE_DIR 0 None (ExtraDir 0) []).
Proof.
  apply (proj1 (proj2 (proj2 constructed_node_is_typed))
           "docs" 0 0 []
           (Node NodeDir "docs" TYPE_DIR 0 None (ExtraDir 0) [], [])
           eq_refl).
Defined.

(** X3: on a node that [typcast_node] has accepted, [may_have_children]
    never raises, and it answers [True] exactly for the types ["top"],
    ["dir"] and ["storage"]; on a node of the generic class it raises
    [NotImplementedError]. *)
Theorem may_have_children_after_typcast (n n' : node) :
  (typcast_node n = Ok n' →
   may_have_children n'
   = Ok (bool_decide (type n ∈ ["top"; "dir"; "storage"])))
  ∧ (cls n = NodeAny → may_have_children n = Raise NotImplementedError).
Proof.
  split.
  - unfold typcast_node.
    destruct (class_of_type (type n)) as [k|e] eqn:Hk; [|discriminate].
    simpl_bind. intros [= <-]. apply class_of_type_cases in Hk.
    unfold known_kinds in Hk. rewrite !elem_of_cons, elem_of_nil in Hk.
    unfold may_have_children. cbn [cls set_cls].
    destruct Hk as [H|[H|[H|[H|[H|[H|[]]]]]]]; injection H as -> ->;
      reflexivity.
  - unfold may_have_children. intros ->. reflexivity.
Qed.

Lemma may_have_children_after_typcast_witness :
  may_have_children (Node NodeStorage "disk1" "storage" 0 None ExtraNone [])
  = Ok true
  ∧ may_have_children (Node NodeAny "disk1" "storage" 0 None ExtraNone [])
    = Raise NotImplementedError.
Proof.
  split.
  - apply (proj1 (may_have_children_after_typcast
                    (Node NodeAny "disk1" "storage" 0 None ExtraNone [])
                    (Node NodeStorage "disk1" "storage" 0 None ExtraNone []))
             eq_refl).
  - apply (proj2 (may_have_children_after_typcast
                    (Node NodeAny "disk1" "storage" 0 None ExtraNone [])
                    (Node NodeAny "disk1" "storage" 0 None ExtraNone []))
             eq_refl).
Defined.

(** ** Sequences of [flag()] and [unflag()] *)

Lemma unflag_ok (self : node) : unflag self = Ok (set_flagged None self).
Proof. destruct self; reflexivity. Qed.

(** X4: the flag does not count.  Any sequence of [flag()] and [unflag()]
    calls on a node succeeds, changes nothing but the attribute
    [_flagged], and leaves [flagged()] true exactly when the last call was
    [flag()] (or, with no call at all, when it was true before). *)
Theorem run_flag_ops_last (ops : list flag_op) (self : node) :
  ∃ self' : node,
    run_flag_ops ops self = Ok self'
    ∧ set_flagged None self' = set_flagged None self
    ∧ flagged self' =
      match last ops with
      | None => flagged self
      | Some Flag => true
      | Some Unflag => false
      end.
Proof.
  revert self. induction ops as [|op ops IH]; intros self.
  - exists self. repeat split; reflexivity.
  - assert (Hstep : ∀ mid : node,
      set_flagged None mid = set_flagged None self →
      flagged mid = match op with Flag => true | Unflag => false end →
      ∃ self', run_flag_ops ops mid = Ok self'
        ∧ set_flagged None self' = set_flagged None self
        ∧ flagged self' =
          match last (op :: ops) with
          | None => flagged self
          | Some Flag => true
          | Some Unflag => false
          end).
    { intros mid Hsame Hmid. destruct (IH mid) as (self' & Hrun & Hkeep & Hfl).
      exists self'. split; [exact Hrun|]. split; [congruence|].
      rewrite Hfl. destruct ops as [|op' ops'].
      - cbn. rewrite Hmid. destruct op; reflexivity.
      - rewrite last_cons_cons.
        destruct (last (op' :: ops')) as [l|] eqn:Hl; [reflexivity|].
        apply last_None in Hl. discriminate. }
    destruct op; cbn [run_flag_ops].
    + apply Hstep; destruct self; reflexivity.
    + rewrite unflag_ok. simpl_bind. apply Hstep; destruct self; reflexivity.
Qed.

(** ** More on [get_rec_size] *)

(** One turn of the loop, with the dispatch on the class of the child
    written out. *)
Lemma rec_size_loop_cons (c : node) (rest : list node) (tot : Z) :
  rec_size_loop (c :: rest) tot =
  kc ← class_of_type (type c);
  '(s, c') ← get_rec_size_as kc c;
  '(t, rest') ← rec_size_loop rest (tot + s);
  Ok (t, c' :: rest').
Proof.
  cbn [rec_size_loop]. unfold typcast_node.
  destruct (class_of_type (type c)) as [kc|e]; [|reflexivity].
  simpl_bind. rewrite get_rec_size_typcast. reflexivity.
Qed.

Lemma rec_size_loop_raises (chs : list node) (tot : Z) (e : exception) :
  Forall (fun c => ∀ k e, get_rec_size_as k c = Raise e → e = CatcliException)
    chs →
  rec_size_loop chs tot = Raise e → e = CatcliException.
Proof.
  intros Hall. revert tot.
  induction Hall as [|c chs Hc _ IH]; intros tot; [discriminate|].
  rewrite rec_size_loop_cons.
  destruct (class_of_type (type c)) as [kc|e1] eqn:Hk; simpl_bind.
  - destruct (get_rec_size_as kc c) as [[s c']|e2] eqn:Hs; simpl_bind.
    + destruct (rec_size_loop chs (tot + s)) as [[t r]|e3] eqn:Hr; simpl_bind;
        [discriminate|].
      intros [= <-]. eapply IH, Hr.
    + intros [= <-]. eapply Hc, Hs.
  - intros [= <-]. eapply class_of_type_raises, Hk.
Qed.

Lemma get_rec_size_as_raises (k : class) (n : node) (e : exception) :
  get_rec_size_as k n = Raise e → e = CatcliException.
Proof.
  revert k e. induction n as [k0 nm ty size fl ex chs IH] using node_ind'.
  intros k e. rewrite get_rec_size_as_unfold. cbn [children nodesize].
  destruct (rec_size_loop chs size) as [[t chs']|e1] eqn:Hloop.
  - destruct k; simpl_bind; discriminate.
  - pose proof (rec_size_loop_raises _ _ _ IH Hloop) as ->.
    destruct k; simpl_bind; congruence.
Qed.



Lemma rec_size_loop_bad_child (chs : list node) (c : node) (tot : Z) :
  c ∈ chs →
  known_type (type c) = false →
  rec_size_loop chs tot = Raise CatcliException.
Proof.
  intros Hin Hbad.
  assert (Hc : ∀ e, class_of_type (type c) = Raise e → e = CatcliException)
    by (intros e; apply class_of_type_raises).
  assert (Hnot : ∀ k, class_of_type (type c) ≠ Ok k).
  { intros k Hk. apply not_true_iff_false in Hbad. apply Hbad.
    apply known_type_class. eauto. }
  revert tot. induction Hin as [c chs|c d chs Hin IH]; intros tot;
    rewrite rec_size_loop_cons.
  - destruct (class_of_type (type c)) as [k|e] eqn:Hk.
    + destruct (Hnot k eq_refl).
    + simpl_bind. rewrite (Hc e eq_refl). reflexivity.
  - destruct (class_of_type (type d)) as [kd|e] eqn:Hk; simpl_bind.
    + destruct (get_rec_size_as kd d) as [[s d']|e] eqn:Hs; simpl_bind.
      * rewrite IH by assumption. reflexivity.
      * apply get_rec_size_as_raises in Hs as ->. reflexivity.
    + apply class_of_type_raises in Hk as ->. reflexivity.
Qed.

(** X6: a child whose [type] is none of the six known ones makes
    [get_rec_size] of its parent raise [CatcliException], unless the parent
    is a meta node (which does not look at its children). *)
Theorem get_rec_size_bad_child (self c : node) :
  cls self ≠ NodeMeta →
  c ∈ children self →
  known_type (type c) = false →
  get_rec_size self = Raise CatcliException.
Proof.
  intros Hk Hin Hbad. unfold get_rec_size. rewrite get_rec_size_as_unfold.
  rewrite (rec_size_loop_bad_child _ _ _ Hin Hbad).
  destruct (cls self); try reflexivity. done.
Qed.

Lemma get_rec_size_bad_child_witness :
  get_rec_size
    (set_children [Example.file; Node NodeAny "x" "bogus" 0 None ExtraNone []]
       Example.docs)
  = Raise CatcliException.
Proof.
  apply (get_rec_size_bad_child
           (set_children
              [Example.file; Node NodeAny "x" "bogus" 0 None ExtraNone []]
              Example.docs)
           (Node NodeAny "x" "bogus" 0 None ExtraNone [])).
  - discriminate.
  - apply list_elem_of_further, list_elem_of_here.
  - reflexivity.
Defined.

Lemma rec_size_loop_known (chs : list node) :
  Forall (fun c => known_below c = true →
                   ∀ k, ∃ s c', get_rec_size_as k c = Ok (s, c')) chs →
  forallb (fun c => known_type (type c) && known_below c) chs = true →
  ∀ tot, ∃ t chs', rec_size_loop chs tot = Ok (t, chs').
Proof.
  induction 1 as [|c chs Hc _ IH]; intros Hknown tot.
  - eexists _, _. reflexivity.
  - cbn [forallb] in Hknown.
    rewrite !andb_true_iff in Hknown. destruct Hknown as [[Hty Hbelow] Hrest].
    apply known_type_class in Hty as [kc Hkc].
    rewrite rec_size_loop_cons, Hkc. simpl_bind.
    destruct (Hc Hbelow kc) as (s & c' & ->). simpl_bind.
    destruct (IH Hrest (tot + s)) as (t & chs' & ->). simpl_bind.
    eexists _, _. reflexivity.
Qed.

Lemma get_rec_size_as_known (n : node) :
  known_below n = true → ∀ k, ∃ s n', get_rec_size_as k n = Ok (s, n').
Proof.
  induction n as [k0 nm ty size fl ex chs IH] using node_ind'.
  cbn [known_below]. intros Hknown k. rewrite get_rec_size_as_unfold.
  cbn [children nodesize].
  destruct (rec_size_loop_known chs IH Hknown size) as (t & chs' & ->).
  destruct k; simpl_bind; cbn [stores_size]; eexists _, _; reflexivity.
Qed.

(** X7: [get_rec_size] returns a size whenever every node strictly below
    the one it is called on has a known [type]; the [type] of that node
    itself is never looked at. *)
Theorem get_rec_size_succeeds (self : node) :
  known_below self = true →
  ∃ (size : Z) (self' : node), get_rec_size self = Ok (size, self').
Proof. intros Hknown. apply get_rec_size_as_known, Hknown. Qed.

Lemma get_rec_size_succeeds_witness :
  ∃ (size : Z) (self' : node),
    get_rec_size
      (Node NodeDir "docs" "bogus" 0 None (ExtraDir 0) [Example.file])
    = Ok (size, self').
Proof.
  apply (get_rec_size_succeeds
           (Node NodeDir "docs" "bogus" 0 None (ExtraDir 0) [Example.file])).
  reflexivity.
Defined.

Lemma rec_size_loop_app (l1 l2 : list node) (tot : Z) :
  rec_size_loop (l1 ++ l2) tot =
  '(t1, l1') ← rec_size_loop l1 tot;
  '(t2, l2') ← rec_size_loop l2 t1;
  Ok (t2, l1' ++ l2').
Proof.
  revert tot. induction l1 as [|c l1 IH]; intros tot.
  - cbn [app rec_size_loop]. simpl_bind.
    destruct (rec_size_loop l2 tot) as [[t2 l2']|e]; reflexivity.
  - cbn [app]. rewrite !rec_size_loop_cons.
    destruct (class_of_type (type c)) as [kc|e]; [|reflexivity]. simpl_bind.
    destruct (get_rec_size_as kc c) as [[s c']|e]; [|reflexivity]. simpl_bind.
    rewrite IH.
    destruct (rec_size_loop l1 (tot + s)) as [[t1 l1']|e]; [|reflexivity].
    simpl_bind.
    destruct (rec_size_loop l2 t1) as [[t2 l2']|e]; reflexivity.
Qed.

(** X8: a meta node appended to the children of a node adds nothing to the
    size [get_rec_size] returns for that node, whatever the [nodesize], the
    attributes and the children of the meta node. *)
Theorem get_rec_size_meta_child (self m : node) :
  type m = TYPE_META →
  fst <$> get_rec_size (set_children (children self ++ [m]) self)
  = fst <$> get_rec_size self.
Proof.
  intros Hm. unfold get_rec_size. rewrite !get_rec_size_as_unfold.
  cbn [cls set_children children nodesize].
  rewrite rec_size_loop_app.
  destruct (rec_size_loop (children self) (nodesize self)) as [[t1 l1']|e];
    [|destruct (cls self); reflexivity].
  simpl_bind. rewrite rec_size_loop_cons, Hm.
  change (class_of_type TYPE_META) with (Ok NodeMeta). simpl_bind.
  rewrite get_rec_size_as_unfold. simpl_bind.
  cbn [rec_size_loop]. simpl_bind. rewrite Z.add_0_r.
  destruct (cls self); reflexivity.
Qed.

Lemma get_rec_size_meta_child_witness :
  fst <$> get_rec_size Example.disk1_meta = fst <$> get_rec_size Example.disk1.
Proof.
  apply (get_rec_size_meta_child Example.disk1 Example.meta eq_refl).
Defined.

Lemma typed_typcast (c : node) : typed c = true → typcast_node c = Ok c.
Proof.
  intros Hc. unfold typcast_node. rewrite (typed_class _ Hc). simpl_bind.
  rewrite set_cls_cls. reflexivity.
Qed.

Lemma rec_size_loop_typed (chs : list node) :
  Forall (fun c => ∀ c' s, typed c = true →
            get_rec_size c = Ok (s, c') →
            erase_cache c' = erase_cache c ∧ typed c' = true) chs →
  forallb typed chs = true →
  ∀ tot t chs',
    rec_size_loop chs tot = Ok (t, chs') →
    map erase_cache chs' = map erase_cache chs ∧ forallb typed chs' = true.
Proof.
  induction 1 as [|c chs Hc _ IH]; intros Htyped tot t chs'.
  - cbn. intros [= <- <-]. split; reflexivity.
  - cbn [forallb] in Htyped. apply andb_true_iff in Htyped as [Hty Hrest].
    cbn [rec_size_loop]. rewrite (typed_typcast _ Hty). simpl_bind.
    destruct (get_rec_size c) as [[s c']|e] eqn:Hs; [|discriminate].
    simpl_bind.
    destruct (rec_size_loop chs (tot + s)) as [[t1 r]|e] eqn:Hr;
      [|discriminate].
    simpl_bind. intros [= <- <-].
    destruct (Hc c' s Hty eq_refl) as [Hc1 Hc2].
    destruct (IH Hrest _ _ _ Hr) as [Hr1 Hr2].
    cbn [map forallb]. rewrite Hc1, Hr1, Hc2, Hr2. split; reflexivity.
Qed.

(** X9: on a tree in which every node has the class of its [type],
    [get_rec_size] changes nothing but the [nodesize] of top, storage and
    directory nodes: names, types, classes, flags, the other attributes,
    the sizes of files and archived entries and the order of the children
    are as before. *)
Theorem get_rec_size_changes_only_cache (self self' : node) (size : Z) :
  typed self = true →
  get_rec_size self = Ok (size, self') →
  erase_cache self' = erase_cache self ∧ typed self' = true.
Proof.
  revert self' size.
  induction self as [k nm ty sz fl ex chs IH] using node_ind'.
  intros self' size Htyped. pose proof Htyped as Htyped'.
  cbn [typed] in Htyped'. apply andb_true_iff in Htyped' as [Hty Hchs].
  unfold get_rec_size. rewrite get_rec_size_as_unfold.
  cbn [cls children nodesize].
  destruct (rec_size_loop chs sz) as [[t chs']|e] eqn:Hloop.
  - destruct (rec_size_loop_typed chs IH Hchs _ _ _ Hloop) as [Hmap Hall].
    destruct k; simpl_bind; cbn [stores_size]; intros [= <- <-];
      try (split; [reflexivity|exact Htyped]);
      cbn [set_nodesize set_children set_cls erase_cache typed
             cls name type nodesize _flagged fields children is_container];
      rewrite Hmap, Hall, Hty; split; reflexivity.
  - destruct k; simpl_bind; try discriminate.
    intros [= <- <-]. split; [reflexivity|exact Htyped].
Qed.

Lemma get_rec_size_changes_only_cache_witness :
  ∃ top' : node,
    get_rec_size Example.top = Ok (10, top')
    ∧ erase_cache top' = erase_cache Example.top
    ∧ typed top' = true.
Proof.
  eexists. split; [reflexivity|].
  apply (get_rec_size_changes_only_cache Example.top _ 10 eq_refl eq_refl).
Defined.

Lemma erase_cls_type (n : node) : type (erase_cls n) = type n.
Proof. destruct n; reflexivity. Qed.

Lemma rec_size_loop_erase_cls (chs : list node) :
  Forall (fun c => ∀ k, fst <$> get_rec_size_as k c
                        = fst <$> get_rec_size_as k (erase_cls c)) chs →
  ∀ tot, fst <$> rec_size_loop chs tot
         = fst <$> rec_size_loop (map erase_cls chs) tot.
Proof.
  induction 1 as [|c chs Hc _ IH]; intros tot; [reflexivity|].
  cbn [map]. rewrite !rec_size_loop_cons, erase_cls_type.
  destruct (class_of_type (type c)) as [kc|e]; [|reflexivity]. simpl_bind.
  specialize (Hc kc).
  destruct (get_rec_size_as kc c) as [[s c']|e],
           (get_rec_size_as kc (erase_cls c)) as [[s2 c2]|e2];
    cbn in Hc; try discriminate Hc.
  - injection Hc as <-. simpl_bind. specialize (IH (tot + s)).
    destruct (rec_size_loop chs (tot + s)) as [[t r]|e],
             (rec_size_loop (map erase_cls chs) (tot + s)) as [[t2 r2]|e2];
      cbn in IH; try discriminate IH; injection IH as <-; reflexivity.
  - injection Hc as <-. reflexivity.
Qed.

Lemma get_rec_size_as_erase_cls (k : class) (n : node) :
  fst <$> get_rec_size_as k n = fst <$> get_rec_size_as k (erase_cls n).
Proof.
  revert k. induction n as [k0 nm ty size fl ex chs IH] using node_ind'.
  intros k. cbn [erase_cls]. rewrite !get_rec_size_as_unfold.
  cbn [children nodesize].
  pose proof (rec_size_loop_erase_cls chs IH size) as Hloop.
  destruct (rec_size_loop chs size) as [[t r]|e],
           (rec_size_loop (map erase_cls chs) size) as [[t2 r2]|e2];
    cbn in Hloop; try discriminate Hloop; injection Hloop as <-;
    destruct k; reflexivity.
Qed.

(** X10: the size [get_rec_size] returns does not depend on the classes the
    nodes below have when it is called, only on their types: called on two
    nodes of the same class whose trees differ in classes alone, for
    instance one of them freshly loaded with generic nodes, it returns the
    same size, or raises the same exception. *)
Theorem get_rec_size_ignores_classes_below (n1 n2 : node) :
  cls n1 = cls n2 →
  erase_cls n1 = erase_cls n2 →
  fst <$> get_rec_size n1 = fst <$> get_rec_size n2.
Proof.
  intros Hk Herase. unfold get_rec_size.
  rewrite (get_rec_size_as_erase_cls _ n1), (get_rec_size_as_erase_cls _ n2).
  rewrite Hk, Herase. reflexivity.
Qed.

Lemma get_rec_size_ignores_classes_below_witness :
  fst <$> get_rec_size (set_cls NodeTop (erase_cls Example.top))
  = fst <$> get_rec_size Example.top.
Proof.
  apply (get_rec_size_ignores_classes_below
           (set_cls NodeTop (erase_cls Example.top)) Example.top
           eq_refl eq_refl).
Defined.

(** ** More on updating a tree *)

(** An ancestor of a node of the tree is a node of the tree. *)
Lemma deref_ancestor (root : node) (rel a : list nat) (n : node) :
  deref root (rel ++ a) = Some n → ∃ m, deref root a = Some m.
Proof.
  revert n. induction rel as [|i rel IH]; intros n; cbn [app deref].
  - eauto.
  - destruct (deref root (rel ++ a)) as [p|] eqn:Hp; [|discriminate].
    intros _. eapply IH. reflexivity.
Qed.

(** What an update below an ancestor does to the sub tree of that
    ancestor. *)
Lemma deref_update_ancestor (f : node → node) (root : node)
    (rel a : list nat) (m : node) :
  deref root a = Some m →
  deref (update f (rel ++ a) root) a = Some (update f rel m).
Proof.
  intros Hm. revert f. induction rel as [|i rel IH]; intros f; cbn [app update].
  - apply deref_update, Hm.
  - apply IH.
Qed.

(** An update strictly below a node changes none of its own attributes. *)
Lemma update_keeps_own (f : node → node) (h : handle) (m : node) :
  (∀ n, own (f n) = own n) → own (update f h m) = own m.
Proof.
  revert f. induction h as [|i up IH]; intros f Hf; cbn [update].
  - apply Hf.
  - apply IH. intros p. reflexivity.
Qed.

Lemma update_below_own (f : node → node) (i : nat) (rel : list nat) (m : node) :
  own (update f (i :: rel) m) = own m.
Proof. cbn [update]. apply update_keeps_own. intros p. reflexivity. Qed.

(** An update at a node, or below it, changes nothing in the types and names
    of its ancestors. *)
Lemma lineage_update (f : node → node) (root : node) (rel a : list nat)
    (n : node) :
  deref root (rel ++ a) = Some n →
  lineage (update f (rel ++ a) root) a = lineage root a.
Proof.
  revert rel. induction a as [|j up IH]; intros rel Hn; [reflexivity|].
  cbn [lineage].
  assert (Hrel : rel ++ j :: up = (rel ++ [j]) ++ up)
    by (rewrite <- app_assoc; reflexivity).
  rewrite Hrel in Hn |- *.
  destruct (deref_ancestor _ _ _ _ Hn) as [p Hp].
  rewrite (deref_update_ancestor f _ _ _ _ Hp), Hp.
  rewrite (IH _ Hn).
  destruct (rel ++ [j]) as [|i rel'] eqn:Hne.
  { destruct rel; discriminate Hne. }
  pose proof (update_below_own f i rel' p) as Hown.
  rewrite (f_equal (fun o => o.1.1.1.2) Hown : type _ = type p).
  rewrite (f_equal (fun o => o.1.1.1.1.2) Hown : name _ = name p).
  reflexivity.
Qed.

(** ** More on [get_fullpath] *)

(** The path is a function of the class and name of the node and of the
    types and names of its ancestors. *)
Lemma get_fullpath_lineage (root : node) (h : handle) (me : node) :
  deref root h = Some me →
  fst <$> get_fullpath root h
  = path_of_lineage (cls me) (name me) (lineage root h).
Proof.
  revert root me. induction h as [|i up IH]; intros root me Hme.
  - injection Hme as <-. cbn. destruct (cls root); reflexivity.
  - destruct (decide (cls me = NodeTop)) as [Hk|Hk].
    { rewrite (get_fullpath_top _ _ _ Hme Hk), Hk. cbn [lineage].
      destruct (deref root up); reflexivity. }
    rewrite (get_fullpath_cons _ _ _ _ Hme Hk).
    pose proof Hme as Hme'. cbn [deref] in Hme'.
    destruct (deref root up) as [p|] eqn:Hp; [|discriminate].
    cbn [lineage]. rewrite Hp. unfold typcast_node_at. rewrite Hp.
    cbn [from_option]. simpl_bind.
    assert (Hpath : ∀ anc,
      path_of_lineage (cls me) (name me) ((type p, name p) :: anc) =
      pk ← class_of_type (type p);
      ppath ← path_of_lineage pk (name p) anc;
      Ok (os_path_join ppath (name me))).
    { intros anc. cbn [path_of_lineage]. destruct (cls me); try reflexivity.
      done. }
    rewrite Hpath.
    destruct (class_of_type (type p)) as [pk|e]; [|reflexivity]. simpl_bind.
    pose proof (deref_update (set_cls pk) up root p Hp) as Hp1.
    pose proof (IH _ _ Hp1) as Hup. cbn [cls name set_cls] in Hup.
    pose proof (lineage_update (set_cls pk) root [] up p Hp) as Hlin.
    cbn [app] in Hlin. rewrite Hlin in Hup. rewrite <- Hup.
    destruct (get_fullpath (update (set_cls pk) up root) up) as [[pp r]|e];
      reflexivity.
Qed.

(** X11: the path [get_fullpath] returns depends only on the class and the
    name of the node and on the types and names of its ancestors: not on
    the classes the ancestors have when it is called, nor on sizes, flags,
    children or siblings. *)
Theorem get_fullpath_depends_on_lineage (root1 root2 : node) (h : handle)
    (m1 m2 : node) :
  deref root1 h = Some m1 →
  deref root2 h = Some m2 →
  cls m1 = cls m2 →
  name m1 = name m2 →
  lineage root1 h = lineage root2 h →
  fst <$> get_fullpath root1 h = fst <$> get_fullpath root2 h.
Proof.
  intros H1 H2 Hk Hnm Hlin.
  rewrite (get_fullpath_lineage _ _ _ H1), (get_fullpath_lineage _ _ _ H2).
  rewrite Hk, Hnm, Hlin. reflexivity.
Qed.

Lemma get_fullpath_depends_on_lineage_witness :
  fst <$> get_fullpath generic_above_file Example.h_file
  = fst <$> get_fullpath Example.top Example.h_file.
Proof.
  apply (get_fullpath_depends_on_lineage
           generic_above_file Example.top Example.h_file
           Example.file Example.file);
    reflexivity.
Defined.





Lemma map_erase_cls_alter (f : node → node) (i : nat) (l : list node) :
  (∀ n, erase_cls (f n) = erase_cls n) →
  map erase_cls (alter f i l) = map erase_cls l.
Proof.
  intros Hf. revert i. induction l as [|c l IH]; intros [|i]; cbn;
    [reflexivity|reflexivity|rewrite Hf; reflexivity|].
  f_equal. apply IH.
Qed.

Lemma erase_cls_update (f : node → node) (h : handle) (root : node) :
  (∀ n, erase_cls (f n) = erase_cls n) →
  erase_cls (update f h root) = erase_cls root.
Proof.
  revert f. induction h as [|i up IH]; intros f Hf; cbn [update].
  - apply Hf.
  - apply IH. intros [k nm ty size fl ex chs]. cbn.
    rewrite (map_erase_cls_alter f i chs Hf). reflexivity.
Qed.

(** X13: [get_fullpath] leaves the tree as it found it, apart from the
    classes of nodes: it changes no name, type, size, flag or other
    attribute, and adds, removes or moves no node. *)
Theorem get_fullpath_changes_only_classes (root root' : node) (h : handle)
    (s : string) :
  get_fullpath root h = Ok (s, root') →
  erase_cls root' = erase_cls root.
Proof.
  revert root root' s. induction h as [|i up IH]; intros root root' s.
  - cbn. destruct (cls root); intros [= _ <-]; reflexivity.
  - cbn [get_fullpath].
    destruct (deref root (i :: up)) as [me|]; [|discriminate].
    cbn [from_option]. simpl_bind.
    assert (Hrec :
      (root1 ← typcast_node_at root up;
       '(ppath, root2) ← get_fullpath root1 up;
       Ok (os_path_join ppath (name me), root2)) = Ok (s, root') →
      erase_cls root' = erase_cls root).
    { unfold typcast_node_at.
      destruct (deref root up) as [p|]; [|discriminate].
      cbn [from_option]. simpl_bind.
      destruct (class_of_type (type p)) as [pk|e]; [|discriminate].
      simpl_bind.
      destruct (get_fullpath (update (set_cls pk) up root) up)
        as [[pp r]|e] eqn:Hup; [|discriminate].
      simpl_bind. intros [= _ <-].
      rewrite (IH _ _ _ Hup). apply erase_cls_update.
      intros n. destruct n; reflexivity. }
    destruct (cls me); try exact Hrec. intros [= _ <-]. reflexivity.
Qed.

Lemma get_fullpath_changes_only_classes_witness :
  ∃ root' : node,
    get_fullpath generic_above_file Example.h_file
    = Ok ("disk1/docs/a.txt", root')
    ∧ erase_cls root' = erase_cls generic_above_file.
Proof.
  eexists. split; [reflexivity|].
  apply (get_fullpath_changes_only_classes
           generic_above_file _ Example.h_file "disk1/docs/a.txt" eq_refl).
Defined.

(** ** More on [get_storage_node] *)

(** X14: the node [get_storage_node] returns, when it returns one, is a
    node of the tree: the node itself, or its ancestor directly under the
    root.  It returns the root only when it is called on the root. *)
Theorem get_storage_node_returns_node (root : node) (self a : handle) :
  get_storage_node root self = Ok (Some a) →
  (∃ m, deref root a = Some m)
  ∧ (a = self ∨ (length a = 1%nat ∧ is_ancestor a self))
  ∧ (a = [] → self = []).
Proof.
  unfold get_storage_node.
  destruct (deref root self) as [me|] eqn:Hme; [|discriminate].
  cbn [from_option]. simpl_bind.
  assert (Hidx :
    (a0 ← from_option IndexError (ancestors self !! 1%nat); Ok (Some a0))
    = Ok (Some a) →
    (∃ m, deref root a = Some m)
    ∧ (a = self ∨ (length a = 1%nat ∧ is_ancestor a self))
    ∧ (a = [] → self = [])).
  { destruct self as [|i rest]; [discriminate|].
    destruct rest as [|j below] using rev_ind; [discriminate|].
    rewrite ancestors_lookup_1. cbn. intros [= <-].
    split; [|split].
    - change (i :: below ++ [j]) with ((i :: below) ++ [j]) in Hme.
      eapply deref_ancestor, Hme.
    - right. split; [reflexivity|]. exists (i :: below).
      split; [discriminate|reflexivity].
    - discriminate. }
  destruct (cls me); try exact Hidx; try discriminate.
  intros [= <-]. split; [eauto|]. split; [left; reflexivity|tauto].
Qed.

Lemma get_storage_node_returns_node_witness :
  (∃ m, deref Example.top Example.h_disk1 = Some m)
  ∧ (Example.h_disk1 = Example.h_file
     ∨ (length Example.h_disk1 = 1%nat
        ∧ is_ancestor Example.h_disk1 Example.h_file))
  ∧ (Example.h_disk1 = [] → Example.h_file = []).
Proof.
  apply (get_storage_node_returns_node
           Example.top Example.h_file Example.h_disk1 eq_refl).
Defined.

(** ** Constructors and the invariants *)

Lemma forallb_alter {A : Type} (P : A → bool) (f : A → A) (i : nat)
    (l : list A) :
  forallb P l = true →
  (∀ x, l !! i = Some x → P x = true → P (f x) = true) →
  forallb P (alter f i l) = true.
Proof.
  revert i. induction l as [|c l IH]; intros i Hall Hf; [reflexivity|].
  cbn [forallb] in Hall. apply andb_true_iff in Hall as [Hc Hl].
  destruct i as [|i]; cbn; apply andb_true_iff; split; auto.
Qed.

Lemma typed_update (f : node → node) (h : handle) (root : node) :
  typed root = true →
  (∀ n, deref root h = Some n → typed n = true → typed (f n) = true) →
  typed (update f h root) = true.
Proof.
  intros Hroot. revert f. induction h as [|i up IH]; intros f Hf;
    cbn [update].
  - apply Hf; [reflexivity|exact Hroot].
  - apply IH. intros [k nm ty size fl ex chs] Hp Hpar.
    cbn [typed] in Hpar |- *. cbn [set_children cls name type nodesize
      _flagged fields children typed].
    apply andb_true_iff in Hpar as [Hty Hchs].
    apply andb_true_iff. split; [exact Hty|].
    apply forallb_alter; [exact Hchs|].
    intros x Hx. apply Hf. cbn [deref]. rewrite Hp. exact Hx.
Qed.

Lemma kinds_ok_update (f : node → node) (h : handle) (root : node) (d : nat) :
  kinds_ok d root = true →
  (∀ n, deref root h = Some n →
        kinds_ok (length h + d) n = true →
        kinds_ok (length h + d) (f n) = true) →
  kinds_ok d (update f h root) = true.
Proof.
  intros Hroot. revert f. induction h as [|i up IH]; intros f Hf;
    cbn [update].
  - apply Hf; [reflexivity|exact Hroot].
  - apply IH. intros [k nm ty size fl ex chs] Hp Hpar.
    cbn [kinds_ok] in Hpar |- *. cbn [set_children cls name type nodesize
      _flagged fields children kinds_ok].
    rewrite !andb_true_iff in Hpar. destruct Hpar as [[[Htop Hst] Hcont] Hchs].
    rewrite !andb_true_iff. repeat split; [exact Htop|exact Hst| |].
    + apply orb_true_iff in Hcont as [Hc|Hnil];
        apply orb_true_iff; [left; exact Hc|right].
      apply bool_decide_eq_true in Hnil as ->. reflexivity.
    + apply forallb_alter; [exact Hchs|].
      intros x Hx. apply (Hf x). cbn [deref]. rewrite Hp. exact Hx.
Qed.

(** A node without children that is neither a top node nor, below depth 1,
    a storage node can be appended under any container of a tree that
    satisfies the invariants. *)
Lemma set_parent_invariants (self root : node) (p : handle) (pn : node)
    (r : ref) :
  invariants root = true →
  deref root p = Some pn →
  is_container (cls pn) = true →
  class_of_type (type self) = Ok (cls self) →
  children self = [] →
  cls self ≠ NodeTop →
  (cls self = NodeStorage → p = []) →
  set_parent self (Some (root, p)) = Ok r →
  invariants r.1 = true.
Proof.
  unfold invariants. rewrite andb_true_iff.
  intros [Htyped Hkinds] Hp Hcont Hty Hnil Htop Hst.
  unfold set_parent. rewrite Hp. cbn [from_option]. simpl_bind.
  intros [= <-]. cbn [fst]. apply andb_true_iff.
  destruct self as [k nm ty size fl ex chs]. cbn in Hty, Hnil, Htop, Hst.
  subst chs. split.
  - apply typed_update; [exact Htyped|].
    intros [k' nm' ty' size' fl' ex' chs'] _ Hn. cbn [typed] in Hn |- *.
    cbn [set_children cls name type nodesize _flagged fields children typed].
    apply andb_true_iff in Hn as [Hn1 Hn2].
    rewrite forallb_app, Hn1, Hn2. cbn [forallb typed].
    rewrite bool_decide_eq_true_2 by exact Hty. reflexivity.
  - apply kinds_ok_update; [exact Hkinds|].
    intros n Hn. rewrite Hp in Hn. injection Hn as <-.
    destruct pn as [k' nm' ty' size' fl' ex' chs']. cbn in Hcont.
    cbn [kinds_ok set_children cls name type nodesize _flagged fields
           children].
    rewrite !andb_true_iff. intros [[[H1 H2] _] H4].
    rewrite Hcont, forallb_app, H4. cbn [forallb kinds_ok orb].
    repeat split; try assumption.
    rewrite !andb_true_iff, !bool_decide_eq_true. repeat split.
    + intros ->. done.
    + lia.
    + intros ->. rewrite (Hst eq_refl). reflexivity.
    + apply orb_true_r.
Qed.

(** X15: the constructors keep the invariants of a catalog when they are
    used as the invariants ask.  In a tree that satisfies them, a file, a
    directory, an archived entry or a meta node constructed without
    children under a top, storage or directory node, and a storage node
    constructed without children under the root, give a tree that
    satisfies them again. *)
Theorem constructors_keep_invariants (root : node) (p : handle) (pn : node) :
  invariants root = true →
  deref root p = Some pn →
  is_container (cls pn) = true →
  (∀ name nodesize md5 maccess r,
     NodeFile_init name nodesize md5 maccess (Some (root, p)) [] = Ok r →
     invariants r.1 = true)
  ∧ (∀ name nodesize maccess r,
       NodeDir_init name nodesize maccess (Some (root, p)) [] = Ok r →
       invariants r.1 = true)
  ∧ (∀ name nodesize md5 archive r,
       NodeArchived_init name nodesize md5 archive (Some (root, p)) []
       = Ok r →
       invariants r.1 = true)
  ∧ (∀ name attr r,
       NodeMeta_init name attr (Some (root, p)) [] = Ok r →
       invariants r.1 = true)
  ∧ (∀ name free total nodesize ts attr r,
       p = [] →
       NodeStorage_init name free total nodesize ts attr (Some (root, p)) []
       = Ok r →
       invariants r.1 = true).
Proof.
  intros Hinv Hp Hcont.
  repeat split; intros;
    (eapply set_parent_invariants;
     [exact Hinv|exact Hp|exact Hcont| | | | |eassumption]);
    try reflexivity; try discriminate; auto.
Qed.

Lemma constructors_keep_invariants_witness :
  ∃ r : ref,
    NodeFile_init "b.txt" 5 "def" 0 (Some (Example.top, Example.h_docs)) []
    = Ok r
    ∧ invariants r.1 = true.
Proof.
  eexists. split; [reflexivity|].
  apply (proj1 (constructors_keep_invariants
                  Example.top Example.h_docs Example.docs
                  eq_refl eq_refl eq_refl) "b.txt" 5 "def" 0 _ eq_refl).
Defined.

(** The path of a node that has just been given a parent. *)
Lemma set_parent_fullpath (self root : node) (p : handle) (pn : node)
    (r : ref) :
  deref root p = Some pn →
  class_of_type (type pn) = Ok (cls pn) →
  cls self ≠ NodeTop →
  set_parent self (Some (root, p)) = Ok r →
  fst <$> get_fullpath r.1 r.2
  = (fun ppath => os_path_join ppath (name self))
      <$> (fst <$> get_fullpath root p).
Proof.
  intros Hp Hty Hk. unfold set_parent. rewrite Hp.
  cbn [from_option]. simpl_bind. intros [= <-]. cbn [fst snd].
  set (f := fun o : node => set_children (children o ++ [self]) o).
  pose proof (deref_update f p root pn Hp) as Hp'.
  assert (Hself : deref (update f p root) (length (children pn) :: p)
                  = Some self).
  { cbn [deref]. rewrite Hp'. cbn.
    rewrite lookup_app_r by lia. rewrite Nat.sub_diag. reflexivity. }
  rewrite (get_fullpath_lineage _ _ _ Hself), (get_fullpath_lineage _ _ _ Hp).
  cbn [lineage]. rewrite Hp'.
  pose proof (lineage_update f root [] p pn Hp) as Hlin. cbn [app] in Hlin.
  rewrite Hlin. cbn [f set_children type name].
  assert (Hpath : ∀ anc,
    path_of_lineage (cls self) (name self) ((type pn, name pn) :: anc) =
    pk ← class_of_type (type pn);
    ppath ← path_of_lineage pk (name pn) anc;
    Ok (os_path_join ppath (name self))).
  { intros anc. cbn [path_of_lineage]. destruct (cls self); try reflexivity.
    done. }
  rewrite Hpath, Hty. simpl_bind.
  destruct (path_of_lineage (cls pn) (name pn) (lineage root p));
    reflexivity.
Qed.

(** X16: the path of a node that a constructor has just attached to a
    parent whose class is the one of its [type] is [os.path.join] of the
    path the parent had before and of the name given to the constructor
    (and the constructor's node has no path when the parent has none). *)
Theorem constructed_node_fullpath (root : node) (p : handle) (pn : node) :
  deref root p = Some pn →
  class_of_type (type pn) = Ok (cls pn) →
  let joined (name : string) : result string :=
    (fun ppath => os_path_join ppath name) <$> (fst <$> get_fullpath root p)
  in
  (∀ name nodesize md5 maccess chs r,
     NodeFile_init name nodesize md5 maccess (Some (root, p)) chs = Ok r →
     fst <$> get_fullpath r.1 r.2 = joined name)
  ∧ (∀ name nodesize maccess chs r,
       NodeDir_init name nodesize maccess (Some (root, p)) chs = Ok r →
       fst <$> get_fullpath r.1 r.2 = joined name)
  ∧ (∀ name nodesize md5 archive chs r,
       NodeArchived_init name nodesize md5 archive (Some (root, p)) chs
       = Ok r →
       fst <$> get_fullpath r.1 r.2 = joined name)
  ∧ (∀ name free total nodesize ts attr chs r,
       NodeStorage_init name free total nodesize ts attr (Some (root, p)) chs
       = Ok r →
       fst <$> get_fullpath r.1 r.2 = joined name)
  ∧ (∀ name attr chs r,
       NodeMeta_init name attr (Some (root, p)) chs = Ok r →
       fst <$> get_fullpath r.1 r.2 = joined name).
Proof.
  intros Hp Hty joined. subst joined.
  repeat split; intros;
    match goal with
    | H : _ = Ok ?r |- _ =>
        apply (set_parent_fullpath _ root p pn r Hp Hty) in H;
          [exact H|discriminate]
    end.
Qed.

Lemma constructed_node_fullpath_witness :
  ∃ r : ref,
    NodeFile_init "b.txt" 5 "def" 0 (Some (Example.top, Example.h_docs)) []
    = Ok r
    ∧ fst <$> get_fullpath r.1 r.2
      = (fun ppath => os_path_join ppath "b.txt")
          <$> (fst <$> get_fullpath Example.top Example.h_docs).
Proof.
  eexists. split; [reflexivity|].
  apply (proj1 (constructed_node_fullpath
                  Example.top Example.h_docs Example.docs eq_refl eq_refl)
           "b.txt" 5 "def" 0 [] _ eq_refl).
Defined.

(** ** What a constructor leaves alone *)

Lemma extends_refl (n : node) : extends n n.
Proof.
  induction n as [k nm ty size fl ex chs IH] using node_ind'.
  apply (Extends _ _ chs []); [reflexivity|cbn; rewrite app_nil_r; reflexivity|].
  cbn. induction IH; constructor; assumption.
Qed.

Lemma Forall2_alter_refl {A : Type} (R : A → A → Prop) (f : A → A) (i : nat)
    (l : list A) :
  (∀ x, R x x) →
  (∀ x, l !! i = Some x → R x (f x)) →
  Forall2 R l (alter f i l).
Proof.
  intros Hrefl. revert i. induction l as [|c l IH]; intros i Hf;
    [constructor|].
  destruct i as [|i]; cbn; constructor.
  - apply Hf. reflexivity.
  - clear IH Hf. induction l; constructor; auto.
  - apply Hrefl.
  - apply IH. intros x Hx. apply Hf. exact Hx.
Qed.

Lemma update_extends (f : node → node) (h : handle) (root : node) :
  (∀ n, deref root h = Some n → extends n (f n)) →
  extends root (update f h root).
Proof.
  revert f. induction h as [|i up IH]; intros f Hf; cbn [update].
  - apply Hf. reflexivity.
  - apply IH. intros par Hpar.
    apply (Extends _ _ (alter f i (children par)) []).
    + reflexivity.
    + cbn. rewrite app_nil_r. reflexivity.
    + apply Forall2_alter_refl; [apply extends_refl|].
      intros x Hx. apply Hf. cbn [deref]. rewrite Hpar. exact Hx.
Qed.

Lemma deref_extends (root root' : node) (h : handle) (n : node) :
  extends root root' →
  deref root h = Some n →
  ∃ n', deref root' h = Some n' ∧ extends n n'.
Proof.
  intros Hext. revert n. induction h as [|i up IH]; intros n; cbn [deref].
  - intros [= <-]. eauto.
  - destruct (deref root up) as [p|]; [|discriminate]. cbn.
    intros Hn. destruct (IH p eq_refl) as (p' & -> & Hp'). cbn.
    destruct Hp' as [p p' same more _ Hchs Hall].
    destruct (Forall2_lookup_l _ _ _ _ _ Hall Hn) as (n' & Hn' & Hnn').
    exists n'. split; [|exact Hnn'].
    rewrite Hchs. apply lookup_app_l_Some, Hn'.
Qed.

Lemma extends_own (n n' : node) : extends n n' → own n' = own n.
Proof. intros [? ? ? ? Hown _ _]. exact Hown. Qed.

Lemma lineage_extends (root root' : node) (h : handle) (n : node) :
  extends root root' →
  deref root h = Some n →
  lineage root' h = lineage root h.
Proof.
  intros Hext. revert n. induction h as [|i up IH]; intros n Hn;
    [reflexivity|].
  cbn [lineage]. cbn [deref] in Hn.
  destruct (deref root up) as [p|] eqn:Hp; [|discriminate].
  destruct (deref_extends _ _ _ _ Hext Hp) as (p' & -> & Hpp').
  apply extends_own in Hpp'.
  rewrite (f_equal (fun o => o.1.1.1.2) Hpp' : type p' = type p).
  rewrite (f_equal (fun o => o.1.1.1.1.2) Hpp' : name p' = name p).
  rewrite (IH p eq_refl). reflexivity.
Qed.

Lemma set_parent_extends (self root : node) (p : handle) (r : ref) :
  set_parent self (Some (root, p)) = Ok r → extends root r.1.
Proof.
  unfold set_parent.
  destruct (deref root p) as [pn|]; [|discriminate].
  cbn [from_option]. simpl_bind. intros [= <-]. cbn [fst].
  apply update_extends. intros n _.
  apply (Extends _ _ (children n) [self]);
    [reflexivity|reflexivity|].
  pose proof (extends_refl n) as Hn. clear -n.
  induction (children n); constructor; [apply extends_refl|assumption].
Qed.

(** X17: attaching a new node disturbs no node that is already in the
    tree.  After [self.parent = parent] in a constructor, every node of the
    tree is found at the same place with the same attributes, and its path
    and its storage node are what they were before. *)
Theorem set_parent_keeps_existing (self root : node) (p : handle) (r : ref)
    (h : handle) (n : node) :
  set_parent self (Some (root, p)) = Ok r →
  deref root h = Some n →
  (∃ n', deref r.1 h = Some n' ∧ own n' = own n)
  ∧ fst <$> get_fullpath r.1 h = fst <$> get_fullpath root h
  ∧ get_storage_node r.1 h = get_storage_node root h.
Proof.
  intros Hset Hn. apply set_parent_extends in Hset.
  destruct (deref_extends _ _ _ _ Hset Hn) as (n' & Hn' & Hnn').
  apply extends_own in Hnn'.
  assert (Hcls : cls n' = cls n) by exact (f_equal (fun o => o.1.1.1.1.1) Hnn').
  assert (Hnm : name n' = name n) by exact (f_equal (fun o => o.1.1.1.1.2) Hnn').
  split; [eauto|]. split.
  - rewrite (get_fullpath_lineage _ _ _ Hn'), (get_fullpath_lineage _ _ _ Hn).
    rewrite Hcls, Hnm, (lineage_extends _ _ _ _ Hset Hn). reflexivity.
  - unfold get_storage_node. rewrite Hn', Hn. cbn [from_option]. simpl_bind.
    rewrite Hcls. reflexivity.
Qed.

Lemma set_parent_keeps_existing_witness :
  ∃ r : ref,
    NodeFile_init "b.txt" 5 "def" 0 (Some (Example.top, Example.h_docs)) []
    = Ok r
    ∧ (∃ n', deref r.1 Example.h_file = Some n' ∧ own n' = own Example.file)
    ∧ fst <$> get_fullpath r.1 Example.h_file
      = fst <$> get_fullpath Example.top Example.h_file
    ∧ get_storage_node r.1 Example.h_file
      = get_storage_node Example.top Example.h_file.
Proof.
  eexists. split; [reflexivity|].
  apply (set_parent_keeps_existing
           (Node NodeFile "b.txt" TYPE_FILE 5 None (ExtraFile "def" 0) [])
           Example.top Example.h_docs _ Example.h_file Example.file
           eq_refl eq_refl).
Defined.

(** ** Adding a file to a container *)

(** X18: a file or an archived entry without children, appended to the
    children of a node that is not a meta node, adds exactly its own
    [nodesize] to the size [get_rec_size] returns for that node. *)
Theorem get_rec_size_leaf_child (self c : node) :
  cls self ≠ NodeMeta →
  type c = TYPE_FILE ∨ type c = TYPE_ARCHIVED →
  children c = [] →
  fst <$> get_rec_size (set_children (children self ++ [c]) self)
  = (fun size => size + nodesize c) <$> (fst <$> get_rec_size self).
Proof.
  intros Hk Hty Hnil. unfold get_rec_size. rewrite !get_rec_size_as_unfold.
  cbn [cls set_children children nodesize].
  rewrite rec_size_loop_app.
  destruct (rec_size_loop (children self) (nodesize self)) as [[t1 l1']|e];
    [|destruct (cls self); try reflexivity; done].
  simpl_bind. rewrite rec_size_loop_cons.
  assert (Hc : ∃ kc, class_of_type (type c) = Ok kc
                     ∧ (kc = NodeFile ∨ kc = NodeArchived)).
  { destruct Hty as [-> | ->]; eexists; (split; [reflexivity|]); auto. }
  destruct Hc as (kc & -> & Hkc). simpl_bind.
  rewrite get_rec_size_as_unfold, Hnil. cbn [rec_size_loop]. simpl_bind.
  destruct Hkc as [-> | ->]; simpl_bind; cbn [stores_size];
    simpl_bind; cbn [rec_size_loop]; simpl_bind;
    destruct (cls self); try reflexivity; done.
Qed.

Lemma get_rec_size_leaf_child_witness :
  fst <$> get_rec_size
            (set_children
               [Example.file;
                Node NodeArchived "readme" TYPE_ARCHIVED 5 None
                  (ExtraArchived "def" "bundle.zip") []]
               Example.docs)
  = (fun size => size + 5) <$> (fst <$> get_rec_size Example.docs).
Proof.
  apply (get_rec_size_leaf_child Example.docs
           (Node NodeArchived "readme" TYPE_ARCHIVED 5 None
              (ExtraArchived "def" "bundle.zip") [])).
  - discriminate.
  - right. reflexivity.
  - reflexivity.
Defined.
